(** * Jewellery store front-end: admin panel, local admin and product page

    A shallow embedding of the three scripts of the repository:

    - the [AdminPanel] class (product table backed by the REST API):
      filtering, pagination, pagination controls, stock classes, API helper;
    - the [ProductManager] class of the product page: API helper with its
      timeout and the mock products;
    - the local admin script (localStorage fallback): storage helpers,
      image conversion, quota handling, HTML escaping, add and delete.

    JavaScript strings are modelled as [string] (sequences of 8-bit
    characters), integers as [Z], the two floating point operations of the
    image resizer through an interface ([FloatOps]) that bounds their
    rounding error, and the browser (localStorage, FileReader, Image,
    canvas, fetch) through explicit interfaces or outcome types. *)

From stdpp Require Import base gmap strings list.
From Stdlib Require Import ZArith List String Ascii Bool Lia QArith Qround Qabs Qminmax Lqa.
From Stdlib Require Import Sorted Permutation.
Import ListNotations.

Local Open Scope string_scope.
Local Open Scope Z_scope.

(** ** JavaScript built-ins used by the scripts *)

Module JS.

(** [String.prototype.toLowerCase], on the ASCII letters. *)
Definition toLowerCase_char (c : ascii) : ascii :=
  let n := nat_of_ascii c in
  if ((65 <=? n)%nat && (n <=? 90)%nat)%bool then ascii_of_nat (n + 32) else c.

Fixpoint toLowerCase (s : string) : string :=
  match s with
  | EmptyString => EmptyString
  | String c s' => String (toLowerCase_char c) (toLowerCase s')
  end.

(** [String.prototype.includes]: [sub] occurs in [s] at some position. *)
Fixpoint includes (s sub : string) : bool :=
  if String.prefix sub s then true
  else match s with
       | EmptyString => false
       | String _ s' => includes s' sub
       end.

(** Truthiness of a string: only the empty string is falsy. *)
Definition truthy (s : string) : bool :=
  match s with EmptyString => false | _ => true end.

(** [Array.prototype.slice(start, end)] with its treatment of negative and
    out-of-range indices. *)
Definition slice {A : Type} (l : list A) (start end_ : Z) : list A :=
  let len := Z.of_nat (List.length l) in
  let k := if start <? 0 then Z.max (len + start) 0 else Z.min start len in
  let final := if end_ <? 0 then Z.max (len + end_) 0 else Z.min end_ len in
  firstn (Z.to_nat (final - k)) (skipn (Z.to_nat k) l).

(** [Math.ceil(a / b)] for integers [a] and [b > 0]. *)
Definition ceil_div (a b : Z) : Z := - ((- a) / b).

(** The integers [1 .. n] a [for (let i = 1; i <= n; i++)] loop visits. *)
Definition range1 (n : Z) : list Z :=
  List.map Z.of_nat (List.seq 1 (Z.to_nat n)).

End JS.

(** ** Promises and the network, as [fetch] shows them to the scripts *)

Module Net.

(** What reading the body with [response.json()] does. *)
Inductive body (J : Type) :=
| BodyJson (j : J)
| BodyInvalid
| BodyStalls.

(** How [fetch] settles: it rejects, or resolves with a response. *)
Inductive fetch_result (J : Type) :=
| NetworkError
| Response (ok : bool) (status : Z) (b : body J).

(** One request: [fetch] settles after some milliseconds, or never. *)
Inductive network (J : Type) :=
| Settles (ms : Z) (r : fetch_result J)
| Hangs.

Inductive error :=
| FetchFailed
| AbortError
| HttpError (status : Z)
| InvalidJson.

(** The state an awaited promise ends in; [Pending] is never settling. *)
Inductive promise (A : Type) :=
| Resolved (v : A)
| Rejected (e : error)
| Pending.

Arguments BodyJson {J} j.
Arguments BodyInvalid {J}.
Arguments BodyStalls {J}.
Arguments NetworkError {J}.
Arguments Response {J} ok status b.
Arguments Settles {J} ms r.
Arguments Hangs {J}.
Arguments Resolved {A} v.
Arguments Rejected {A} e.
Arguments Pending {A}.

(** [await response.json()] after the [response.ok] test. *)
Definition read_json {J : Type} (r : fetch_result J) : promise J :=
  match r with
  | NetworkError => Rejected FetchFailed
  | Response ok status b =>
      if negb ok then Rejected (HttpError status)
      else match b with
           | BodyJson j => Resolved j
           | BodyInvalid => Rejected InvalidJson
           | BodyStalls => Pending
           end
  end.

End Net.

(** ** The admin panel (class [AdminPanel]) *)

Module AdminPanel.

Record product := mkProduct {
  id : Z;
  name : string;
  category : string;
  price : Q;
  stock : Z;
  description : string;
  image : string
}.

(** One element of the pagination bar built by [renderPagination]. *)
Inductive control :=
| Previous (disabled : bool) (target : Z)
| PageButton (active : bool) (page : Z)
| Ellipsis
| Next (disabled : bool) (target : Z).

(** The fields of the object together with the parts of the document it
    reads (the two filter inputs) and writes (table body, pagination). *)
Record t := mk {
  products : list product;
  currentPage : Z;
  itemsPerPage : Z;
  totalPages : Z;
  searchProducts : string;          (* value of the #searchProducts input *)
  categoryFilter : string;          (* value of the #categoryFilter select *)
  tableBody : list product;         (* rows of #productsTableBody; [] is the empty state *)
  pagination : list control         (* content of #pagination *)
}.

(** State after the field initialisers of the constructor. *)
Definition constructor (search cat : string) : t :=
  {| products := []; currentPage := 1; itemsPerPage := 10; totalPages := 0;
     searchProducts := search; categoryFilter := cat;
     tableBody := []; pagination := [] |}.

Definition set_currentPage (this : t) (page : Z) : t :=
  {| products := products this; currentPage := page;
     itemsPerPage := itemsPerPage this; totalPages := totalPages this;
     searchProducts := searchProducts this; categoryFilter := categoryFilter this;
     tableBody := tableBody this; pagination := pagination this |}.

Definition set_products (this : t) (ps : list product) : t :=
  {| products := ps; currentPage := currentPage this;
     itemsPerPage := itemsPerPage this; totalPages := totalPages this;
     searchProducts := searchProducts this; categoryFilter := categoryFilter this;
     tableBody := tableBody this; pagination := pagination this |}.

Definition set_inputs (this : t) (search cat : string) : t :=
  {| products := products this; currentPage := currentPage this;
     itemsPerPage := itemsPerPage this; totalPages := totalPages this;
     searchProducts := search; categoryFilter := cat;
     tableBody := tableBody this; pagination := pagination this |}.

Definition matches (searchTerm categoryFilter : string) (p : product) : bool :=
  let matchesSearch :=
    negb (JS.truthy searchTerm)
    || JS.includes (JS.toLowerCase (name p)) searchTerm
    || JS.includes (JS.toLowerCase (description p)) searchTerm in
  let matchesCategory :=
    negb (JS.truthy categoryFilter) || String.eqb (category p) categoryFilter in
  matchesSearch && matchesCategory.

Definition getFilteredProducts (this : t) : list product :=
  let searchTerm := JS.toLowerCase (searchProducts this) in
  List.filter (matches searchTerm (categoryFilter this)) (products this).

Definition getPaginatedProducts (this : t) (ps : list product) : list product :=
  let startIndex := (currentPage this - 1) * itemsPerPage this in
  let endIndex := startIndex + itemsPerPage this in
  JS.slice ps startIndex endIndex.

(** The body of the page-number loop for one [i]. *)
Definition pageControls (this : t) (total i : Z) : list control :=
  if (i =? 1) || (i =? total)
     || ((currentPage this - 2 <=? i) && (i <=? currentPage this + 2))
  then [PageButton (i =? currentPage this) i]
  else if (i =? currentPage this - 3) || (i =? currentPage this + 3)
       then [Ellipsis]
       else [].

Definition renderPagination (this : t) (totalItems : Z) : t :=
  let total := JS.ceil_div totalItems (itemsPerPage this) in
  let bar :=
    if total <=? 1 then []
    else Previous (currentPage this =? 1) (currentPage this - 1)
         :: List.flat_map (pageControls this total) (JS.range1 total)
         ++ [Next (currentPage this =? total) (currentPage this + 1)] in
  {| products := products this; currentPage := currentPage this;
     itemsPerPage := itemsPerPage this; totalPages := total;
     searchProducts := searchProducts this; categoryFilter := categoryFilter this;
     tableBody := tableBody this; pagination := bar |}.

Definition set_tableBody (this : t) (rows : list product) : t :=
  {| products := products this; currentPage := currentPage this;
     itemsPerPage := itemsPerPage this; totalPages := totalPages this;
     searchProducts := searchProducts this; categoryFilter := categoryFilter this;
     tableBody := rows; pagination := pagination this |}.

Definition renderProducts (this : t) : t :=
  let filteredProducts := getFilteredProducts this in
  let paginatedProducts := getPaginatedProducts this filteredProducts in
  match paginatedProducts with
  | [] => set_tableBody this []
  | _ :: _ =>
      renderPagination (set_tableBody this paginatedProducts)
                       (Z.of_nat (List.length filteredProducts))
  end.

Definition goToPage (this : t) (page : Z) : t :=
  renderProducts (set_currentPage this page).

Definition filterProducts (this : t) : t :=
  renderProducts (set_currentPage this 1).

Definition getStockClass (stock : Z) : string :=
  if stock <=? 5 then "stock-low"
  else if stock <=? 20 then "stock-medium"
  else "stock-high".

Definition mockProducts : list product :=
  [ mkProduct 1 "Golden Elegance Necklace" "necklaces" 40000%Q 15
      "Handcrafted in 18K gold with dazzling diamonds" "images/necklace_1.png";
    mkProduct 2 "Diamond Ring" "rings" 950%Q 8
      "Exquisite diamond ring with platinum setting" "images/necklace_2.png";
    mkProduct 3 "Pearl Earrings" "earrings" 780%Q 3
      "Classic pearl earrings for elegant occasions" "images/necklace_3.png";
    mkProduct 4 "Luxury Bracelet" "bracelets" 1100%Q 12
      "Sophisticated gold bracelet with intricate design" "images/necklace_4.png" ].

Definition loadMockProducts (this : t) : t :=
  renderProducts (set_products this mockProducts).

(** JSON the products endpoint may answer with: the list itself, the list
    under a [products] key, or anything else. *)
Inductive api_json :=
| ProductsArray (l : list product)
| ProductsWrapped (l : list product)
| OtherJson.

(** [apiRequest]: no timeout; every failure is logged, notified and thrown
    again.  The second component lists the notifications shown. *)
Definition apiRequest {J : Type} (net : Net.network J)
  : Net.promise J * list string :=
  match net with
  | Net.Hangs => (Net.Pending, [])
  | Net.Settles _ r =>
      match Net.read_json r with
      | Net.Resolved j => (Net.Resolved j, [])
      | Net.Rejected e => (Net.Rejected e, ["Error connecting to server"])
      | Net.Pending => (Net.Pending, [])
      end
  end.

(** [loadProducts]: the caller of [apiRequest] that falls back to the mock
    products; a body that holds no product list makes [renderProducts]
    throw inside the same [try].  The table shows the loading row, which
    is no product row, until the request settles. *)
Definition loadProducts (this : t) (net : Net.network api_json) : t :=
  let loading := set_tableBody this [] in
  match fst (apiRequest net) with
  | Net.Resolved (ProductsArray l) => renderProducts (set_products loading l)
  | Net.Resolved (ProductsWrapped l) => renderProducts (set_products loading l)
  | Net.Resolved OtherJson => loadMockProducts loading
  | Net.Rejected _ => loadMockProducts loading
  | Net.Pending => loading
  end.

(** One object of the array the categories endpoint answers with; [None]
    is an [id] that is missing or falsy, otherwise the text the option
    gets as its value. *)
Record category_entry := mkEntry {
  entry_id : option string;
  entry_name : string
}.

(** JSON the categories endpoint may answer with: an array of objects, a
    falsy value, or anything else. *)
Inductive categories_json :=
| CategoriesArray (l : list category_entry)
| CategoriesFalsy
| CategoriesOther.

(** The parts of the document [populateCategorySelects] depends on:
    whether the two selects it visits before the filter exist, and
    whether the filter select has an option of value [""]. *)
Record selects := mkSelects {
  productCategory : bool;
  editProductCategory : bool;
  filterEmptyOption : bool
}.

(** [category.id || category.name]. *)
Definition option_value (c : category_entry) : string :=
  match entry_id c with
  | Some i => if JS.truthy i then i else entry_name c
  | None => entry_name c
  end.

(** The value of a select after its options were replaced: the value of
    its first option, or [""] when it has none. *)
Definition rebuilt_value (emptyOption : bool) (l : list category_entry) : string :=
  if emptyOption then ""
  else match l with
       | [] => ""
       | c :: _ => option_value c
       end.

(** [populateCategorySelects]: each select is emptied, gets back its
    option of value [""] and then one option per category.  No [change]
    event is fired and nothing is rendered.  With a value that is no
    array, [forEach] throws at the first select that exists, after that
    select was emptied; [loadCategories] catches the exception. *)
Definition populateCategorySelects (this : t) (d : selects) (categories : categories_json)
  : t :=
  match categories with
  | CategoriesFalsy => this
  | CategoriesArray l =>
      set_inputs this (searchProducts this) (rebuilt_value (filterEmptyOption d) l)
  | CategoriesOther =>
      if productCategory d || editProductCategory d then this
      else set_inputs this (searchProducts this) ""
  end.

(** [loadCategories]: a failed request is logged and leaves the selects
    as they are. *)
Definition loadCategories (this : t) (d : selects) (net : Net.network categories_json)
  : t :=
  match fst (apiRequest net) with
  | Net.Resolved data => populateCategorySelects this d data
  | Net.Rejected _ => this
  | Net.Pending => this
  end.

(** State of the panel holding the mock products when the search input
    holds [search] and the category select holds [cat]. *)
Definition searching (this : t) (search cat : string) : t :=
  set_inputs (set_products this mockProducts) search cat.

(** *** Reachable states *)

(** The methods that touch the pagination state.  The filter handlers run
    after the user changed an input, so [FilterProducts] carries the new
    values of the two inputs. *)
Inductive call :=
| GoToPage (page : Z)
| FilterProducts (search cat : string)
| RenderProducts.

Definition run (this : t) (c : call) : t :=
  match c with
  | GoToPage page => goToPage this page
  | FilterProducts search cat => filterProducts (set_inputs this search cat)
  | RenderProducts => renderProducts this
  end.

(** States reachable from initialisation (the constructor followed by the
    first [loadProducts]) by any sequence of calls. *)
Inductive reachable : t -> Prop :=
| reachable_init (search cat : string) (net : Net.network api_json) :
    reachable (loadProducts (constructor search cat) net)
| reachable_call (this : t) (c : call) :
    reachable this -> reachable (run this c).

(** The page a click on a control of the pagination bar asks for; a
    disabled button and the ellipsis do nothing. *)
Definition click_target (c : control) : option Z :=
  match c with
  | Previous false target => Some target
  | PageButton _ page => Some page
  | Next false target => Some target
  | _ => None
  end.

(** States reachable through the page: [goToPage] is only called by a
    click on a control that the pagination bar currently shows.  [init]
    starts [loadProducts] and [loadCategories] without awaiting either,
    so the answer to the categories request may arrive at any time. *)
Inductive ui_reachable : t -> Prop :=
| ui_init (search cat : string) (net : Net.network api_json) :
    ui_reachable (loadProducts (constructor search cat) net)
| ui_categories (this : t) (d : selects) (net : Net.network categories_json) :
    ui_reachable this -> ui_reachable (loadCategories this d net)
| ui_click (this : t) (c : control) (page : Z) :
    ui_reachable this ->
    List.In c (pagination this) -> click_target c = Some page ->
    ui_reachable (goToPage this page)
| ui_filter (this : t) (search cat : string) :
    ui_reachable this -> ui_reachable (filterProducts (set_inputs this search cat))
| ui_render (this : t) :
    ui_reachable this -> ui_reachable (renderProducts this)
| ui_reload (this : t) (net : Net.network api_json) :
    ui_reachable this -> ui_reachable (loadProducts this net).

(** The state [this] with the category select holding [cat]: what a
    rendering read when the select held that value. *)
Definition with_category (this : t) (cat : string) : t :=
  set_inputs this (searchProducts this) cat.

(** A table that shows rows was rendered from the product list and the
    search term as they are now and from some value [cat] of the category
    select, the one it held at that rendering: the rows are the current
    page of that filter result, and the stored page count is the page
    count of that filter result. *)
Definition rendered_with (this : t) (cat : string) : Prop :=
  tableBody this
  = getPaginatedProducts this (getFilteredProducts (with_category this cat)) /\
  totalPages this
  = JS.ceil_div (Z.of_nat (List.length (getFilteredProducts (with_category this cat))))
                (itemsPerPage this).

(** What every state reachable through the page satisfies: the page size
    is the constant of the constructor, the page is at least 1 and at most
    the stored page count (1 while that count is still 0), the controls
    on screen lead to pages within the stored count, and a table that
    shows rows was rendered together with the page count of the filter
    result of that rendering. *)
Definition page_inv (this : t) : Prop :=
  itemsPerPage this = 10 /\
  1 <= currentPage this <= Z.max 1 (totalPages this) /\
  (forall c page, List.In c (pagination this) -> click_target c = Some page ->
                  1 <= page <= totalPages this) /\
  (tableBody this <> [] ->
   (exists cat, rendered_with this cat) /\ currentPage this <= totalPages this).

(** The panel showing twelve products filtered by the category "rings",
    after the category select was rebuilt from the answer of the categories
    endpoint: the select is back at its empty option, the table is as it
    was. *)
Definition rings_then_categories : t :=
  loadCategories
    (filterProducts (set_inputs
       (loadProducts (constructor "" "")
          (Net.Settles 10 (Net.Response true 200
             (Net.BodyJson (ProductsArray (mockProducts ++ mockProducts ++ mockProducts))))))
       "" "rings"))
    (mkSelects true true true)
    (Net.Settles 20 (Net.Response true 200
       (Net.BodyJson (CategoriesArray [mkEntry None "rings"; mkEntry None "earrings"])))).

(** The panel after the API answered with an empty product list. *)
Definition empty_catalogue : t :=
  loadProducts (constructor "" "")
    (Net.Settles 10 (Net.Response true 200 (Net.BodyJson (ProductsArray [])))).

(** The panel showing the mock products after a call [goToPage(5)]. *)
Definition mock_page5 : t :=
  run (loadProducts (constructor "" "") (Net.Settles 10 Net.NetworkError)) (GoToPage 5).

(** *** Reading the pagination bar *)

(** Whether the loop of [renderPagination] gives page [i] a button. *)
Definition has_button (current total i : Z) : bool :=
  (i =? 1) || (i =? total) || ((current - 2 <=? i) && (i <=? current + 2)).

(** Whether the loop gives page [i] an ellipsis. *)
Definition has_ellipsis (current total i : Z) : bool :=
  negb (has_button current total i) && ((i =? current - 3) || (i =? current + 3)).

(** The integers [lo .. hi] in increasing order. *)
Definition pages (lo hi : Z) : list Z :=
  List.map (fun k => lo + Z.of_nat k) (List.seq 0 (Z.to_nat (hi - lo + 1))).

(** The pages that have a button in a bar, from left to right. *)
Definition page_numbers (bar : list control) : list Z :=
  List.flat_map (fun c => match c with PageButton _ page => [page] | _ => [] end) bar.

(** The pages whose button carries the class [active]. *)
Definition active_pages (bar : list control) : list Z :=
  List.flat_map (fun c => match c with PageButton true page => [page] | _ => [] end) bar.

(** The number of ellipsis markers in a bar. *)
Definition ellipses (bar : list control) : nat :=
  List.length (List.filter (fun c => match c with Ellipsis => true | _ => false end) bar).

(** *** Edit and delete modals, and the requests that change products *)

(** The panel with its pending selections and the two modals: whether
    each is shown, and the product whose values fill it. *)
Record panel := mkPanel {
  view : t;
  currentEditId : option Z;
  currentDeleteId : option Z;
  editModal : bool;
  deleteModal : bool;
  editForm : option product;
  deletePreview : option product
}.

(** [this.products.find(p => p.id === productId)]. *)
Definition find_product (this : t) (productId : Z) : option product :=
  List.find (fun p => id p =? productId) (products this).

Definition editProduct (p : panel) (productId : Z) : panel :=
  match find_product (view p) productId with
  | None => p
  | Some product =>
      {| view := view p; currentEditId := Some productId;
         currentDeleteId := currentDeleteId p;
         editModal := true; deleteModal := deleteModal p;
         editForm := Some product; deletePreview := deletePreview p |}
  end.

Definition confirmDelete (p : panel) (productId : Z) : panel :=
  match find_product (view p) productId with
  | None => p
  | Some product =>
      {| view := view p; currentEditId := currentEditId p;
         currentDeleteId := Some productId;
         editModal := editModal p; deleteModal := true;
         editForm := editForm p; deletePreview := Some product |}
  end.

Definition closeEditModal (p : panel) : panel :=
  {| view := view p; currentEditId := None; currentDeleteId := currentDeleteId p;
     editModal := false; deleteModal := deleteModal p;
     editForm := editForm p; deletePreview := deletePreview p |}.

Definition closeDeleteModal (p : panel) : panel :=
  {| view := view p; currentEditId := currentEditId p; currentDeleteId := None;
     editModal := editModal p; deleteModal := false;
     editForm := editForm p; deletePreview := deletePreview p |}.

(** The click handler bound to every [.modal] element: a click on the
    overlay itself hides that modal. *)
Definition overlayClickEdit (p : panel) : panel :=
  {| view := view p; currentEditId := currentEditId p;
     currentDeleteId := currentDeleteId p;
     editModal := false; deleteModal := deleteModal p;
     editForm := editForm p; deletePreview := deletePreview p |}.

Definition overlayClickDelete (p : panel) : panel :=
  {| view := view p; currentEditId := currentEditId p;
     currentDeleteId := currentDeleteId p;
     editModal := editModal p; deleteModal := false;
     editForm := editForm p; deletePreview := deletePreview p |}.

Definition set_view (p : panel) (v : t) : panel :=
  {| view := v; currentEditId := currentEditId p;
     currentDeleteId := currentDeleteId p;
     editModal := editModal p; deleteModal := deleteModal p;
     editForm := editForm p; deletePreview := deletePreview p |}.

(** A request sent to the API.  The path of an update or a deletion is
    built from the pending id, which may be [null]. *)
Inductive request (Body : Type) :=
| GET_products
| POST_products (body : Body)
| PUT_product (productId : option Z) (body : Body)
| DELETE_product (productId : option Z).

Arguments GET_products {Body}.
Arguments POST_products {Body} body.
Arguments PUT_product {Body} productId body.
Arguments DELETE_product {Body} productId.

(** What a handler leaves behind: the panel, the notifications shown, in
    order, and the requests sent, in order. *)
Definition outcome (Body : Type) : Type := panel * list string * list (request Body).

(** The part the three handlers share after their request succeeded: the
    product list is loaded again. *)
Definition reload {Body : Type} (p : panel) (net : Net.network api_json) (done : string)
    (sent : request Body) : outcome Body :=
  (set_view p (loadProducts (view p) net),
   done :: snd (apiRequest net),
   [sent; GET_products]).

Definition addProduct {Body J : Type} (p : panel) (productData : Body)
    (net : Net.network J) (next : Net.network api_json) : outcome Body :=
  match apiRequest net with
  | (Net.Resolved _, _) =>
      reload p next "Product added successfully" (POST_products productData)
  | (Net.Rejected _, shown) =>
      (p, (shown ++ ["Failed to add product"])%list, [POST_products productData])
  | (Net.Pending, shown) => (p, shown, [POST_products productData])
  end.

Definition updateProduct {Body J : Type} (p : panel) (productData : Body)
    (net : Net.network J) (next : Net.network api_json) : outcome Body :=
  match apiRequest net with
  | (Net.Resolved _, _) =>
      reload (closeEditModal p) next "Product updated successfully"
             (PUT_product (currentEditId p) productData)
  | (Net.Rejected _, shown) =>
      (p, (shown ++ ["Failed to update product"])%list,
       [PUT_product (currentEditId p) productData])
  | (Net.Pending, shown) => (p, shown, [PUT_product (currentEditId p) productData])
  end.

Definition deleteProduct {Body J : Type} (p : panel)
    (net : Net.network J) (next : Net.network api_json) : outcome Body :=
  match apiRequest net with
  | (Net.Resolved _, _) =>
      reload (closeDeleteModal p) next "Product deleted successfully"
             (DELETE_product (currentDeleteId p))
  | (Net.Rejected _, shown) =>
      (p, (shown ++ ["Failed to delete product"])%list, [DELETE_product (currentDeleteId p)])
  | (Net.Pending, shown) => (p, shown, [DELETE_product (currentDeleteId p)])
  end.

(** What the user and the network do to the panel. *)
Inductive action :=
| EditProduct (productId : Z)
| ConfirmDelete (productId : Z)
| CloseEditModal
| CloseDeleteModal
| OverlayClickEdit
| OverlayClickDelete
| SubmitAdd (net : Net.network unit) (next : Net.network api_json)
| SubmitEdit (net : Net.network unit) (next : Net.network api_json)
| ClickConfirmDelete (net : Net.network unit) (next : Net.network api_json)
| ViewCall (c : call).

Definition act (p : panel) (a : action) : panel :=
  match a with
  | EditProduct productId => editProduct p productId
  | ConfirmDelete productId => confirmDelete p productId
  | CloseEditModal => closeEditModal p
  | CloseDeleteModal => closeDeleteModal p
  | OverlayClickEdit => overlayClickEdit p
  | OverlayClickDelete => overlayClickDelete p
  | SubmitAdd net next => fst (fst (addProduct (Body := unit) p tt net next))
  | SubmitEdit net next => fst (fst (updateProduct (Body := unit) p tt net next))
  | ClickConfirmDelete net next => fst (fst (deleteProduct (Body := unit) p net next))
  | ViewCall c => set_view p (run (view p) c)
  end.

(** The panel after the constructor and the first [loadProducts]. *)
Definition initial_panel (search cat : string) (net : Net.network api_json) : panel :=
  mkPanel (loadProducts (constructor search cat) net) None None false false None None.

(** Panels reachable from initialisation by any sequence of actions. *)
Inductive panel_reachable : panel -> Prop :=
| panel_init (search cat : string) (net : Net.network api_json) :
    panel_reachable (initial_panel search cat net)
| panel_act (p : panel) (a : action) :
    panel_reachable p -> panel_reachable (act p a).

(** A modal that is shown shows the product whose id is pending. *)
Definition modal_inv (p : panel) : Prop :=
  (deleteModal p = true ->
   exists product, deletePreview p = Some product /\ currentDeleteId p = Some (id product)) /\
  (editModal p = true ->
   exists product, editForm p = Some product /\ currentEditId p = Some (id product)).

(** *** Form data *)

(** A property of the object built from a form: the text of the field, or
    the number it was converted to. *)
Inductive field (number : Type) :=
| Text (s : string)
| Number (n : number).

Arguments Text {number} s.
Arguments Number {number} n.

(** The value of the last entry of a form with the given name. *)
Definition last_value (key : string) (formData : list (string * string)) : option string :=
  List.fold_left (fun found entry => if String.eqb (fst entry) key
                                     then Some (snd entry) else found)
                 formData None.

Section PrepareProductData.
Context {number : Type} (parseFloat parseInt : string -> number).

(** One round of the loop over [formData.entries()].  Assigning a string
    to [__proto__] leaves an object as it is. *)
Definition assign (data : gmap string (field number)) (entry : string * string)
  : gmap string (field number) :=
  if String.eqb (fst entry) "images" then data
  else if String.eqb (fst entry) "__proto__" then data
  else <[fst entry := Text (snd entry)]> data.

(** [if (data.key) data.key = parse(data.key)]. *)
Definition to_number (parse : string -> number) (key : string)
    (data : gmap string (field number)) : gmap string (field number) :=
  match data !! key with
  | Some (Text s) => if JS.truthy s then <[key := Number (parse s)]> data else data
  | _ => data
  end.

Definition prepareProductData (formData : list (string * string))
  : gmap string (field number) :=
  let data := List.fold_left assign formData ∅ in
  to_number parseInt "stock" (to_number parseFloat "price" data).

End PrepareProductData.

End AdminPanel.

(** ** The product page (class [ProductManager]) *)

Module ProductManager.

Record product := mkProduct {
  id : Z;
  name : string;
  price : Q;
  description : string;
  image : string;
  category : string
}.

Definition mock1 : product :=
  mkProduct 1 "Golden Elegance Necklace" 40000%Q
    "Handcrafted in 18K gold with dazzling diamonds, this necklace embodies timeless luxury."
    "images/necklace_1.png" "necklaces".

Definition mock2 : product :=
  mkProduct 2 "Diamond Ring" 950%Q
    "Exquisite diamond ring with platinum setting, perfect for special occasions."
    "images/necklace_2.png" "rings".

Definition mock3 : product :=
  mkProduct 3 "Pearl Earrings" 780%Q
    "Classic pearl earrings for elegant occasions, crafted with attention to detail."
    "images/necklace_3.png" "earrings".

Definition mock4 : product :=
  mkProduct 4 "Luxury Bracelet" 1100%Q
    "Sophisticated gold bracelet with intricate design, a statement piece for any outfit."
    "images/necklace_4.png" "bracelets".

(** The object literal of [getMockProduct], by property key. *)
Definition mockProducts : list (string * product) :=
  [ ("1", mock1); ("2", mock2); ("3", mock3); ("4", mock4) ].

(** Property names every object literal inherits from [Object.prototype];
    all of them hold truthy values. *)
Definition Object_prototype_keys : list string :=
  [ "constructor"; "hasOwnProperty"; "isPrototypeOf"; "propertyIsEnumerable";
    "toLocaleString"; "toString"; "valueOf"; "__proto__";
    "__defineGetter__"; "__defineSetter__"; "__lookupGetter__"; "__lookupSetter__" ].

(** What a request resolves with. *)
Inductive value (J : Type) :=
| Parsed (j : J)
| Mock (p : product)
| Inherited (key : string).

Arguments Parsed {J} j.
Arguments Mock {J} p.
Arguments Inherited {J} key.

Fixpoint own_property (key : string) (o : list (string * product)) : option product :=
  match o with
  | [] => None
  | (k, p) :: o' => if String.eqb k key then Some p else own_property key o'
  end.

(** [getProductId]: the [id] parameter of the URL, or 1 when it is absent
    or empty.  The id is kept as the property key it is used as. *)
Definition getProductId (param : option string) : string :=
  match param with
  | Some s => if JS.truthy s then s else "1"
  | None => "1"
  end.

(** [mockProducts[this.productId] || mockProducts[1]]. *)
Definition getMockProduct {J : Type} (productId : string) : value J :=
  match own_property productId mockProducts with
  | Some p => Mock p
  | None =>
      if List.existsb (String.eqb productId) Object_prototype_keys
      then Inherited productId
      else Mock mock1
  end.

Definition TIMEOUT_MS : Z := 1500.

(** [apiRequest]: the abort timer runs until [fetch] settles; whatever is
    thrown inside the [try] is answered with the mock product. *)
Definition apiRequest {J : Type} (productId : string) (net : Net.network J)
  : Net.promise (value J) :=
  match net with
  | Net.Hangs => Net.Resolved (getMockProduct productId)
  | Net.Settles ms r =>
      if TIMEOUT_MS <=? ms then Net.Resolved (getMockProduct productId)
      else match Net.read_json r with
           | Net.Resolved j => Net.Resolved (Parsed j)
           | Net.Rejected _ => Net.Resolved (getMockProduct productId)
           | Net.Pending => Net.Pending
           end
  end.

End ProductManager.

(** ** The local admin script (localStorage fallback) *)

Module LocalAdmin.

Definition PRODUCTS_KEY : string := "local-products".
Definition CATEGORIES_KEY : string := "local-categories".

Record category := mkCategory {
  cat_id : Z;
  cat_name : string;
  cat_image : string
}.

Record product := mkProduct {
  id : Z;
  title : string;
  price : Q;
  description : string;
  image : string;
  prod_category : option (Z * string)     (* { id, name } of the category, or null *)
}.

(** An element of a stored array. *)
Inductive record :=
| Product (p : product)
| Category (c : category).

Definition record_id (r : record) : Z :=
  match r with
  | Product p => id p
  | Category c => cat_id c
  end.

(** A parsed JSON value, as far as the script tells values apart. *)
Inductive json :=
| JArray (items : list record)
| JOther.

(** A stored string, represented by the JSON value it encodes, or kept as
    raw text when [JSON.parse] rejects it (the empty string included). *)
Inductive text :=
| TJson (v : json)
| TRaw (s : string).

Definition JSON_stringify (arr : list record) : text := TJson (JArray arr).

(** What [setItem] throws: the quota error, or any other exception. *)
Inductive DOMException :=
| QuotaExceededError
| OtherError.

(** The [Storage] interface of the browser: [getItem] answers [null] for a
    missing key, [setItem] stores the value or throws. *)
Class Storage (S : Type) := {
  getItem : S -> string -> option text;
  setItem : S -> string -> text -> S + DOMException;
  getItem_setItem : forall s k v s' k',
    setItem s k v = inl s' ->
    getItem s' k' = if String.eqb k k' then Some v else getItem s k'
}.

(** What a handler does besides changing the store. *)
Inductive effect :=
| Write (key : string) (value : text) (ok : bool)
| ConsoleWarn
| Alert (msg : string).

(** The values the submit handler of the product form has read from the
    form (trimmed text inputs, converted image, selected category). *)
Record product_form := mkForm {
  form_title : string;
  form_price : Q;
  form_description : string;
  form_image : string;
  form_category : option (Z * string)
}.

(** What the user does to the product list: submit the form while
    [Date.now()] is [now], or press Delete on the product [pid]. *)
Inductive op :=
| Add (now : Z) (f : product_form)
| Delete (pid : Z).

(** The clock values the additions of a sequence read. *)
Definition add_times (ops : list op) : list Z :=
  List.flat_map (fun o => match o with Add now _ => [now] | Delete _ => [] end) ops.

Definition alerts (log : list effect) : list string :=
  List.flat_map (fun e => match e with Alert msg => [msg] | _ => [] end) log.

(** The writes a log attempted, in order. *)
Definition written (log : list effect) : list (string * text) :=
  List.flat_map (fun e => match e with Write k v _ => [(k, v)] | _ => [] end) log.

Section LocalStore.
Context {S : Type} `{Storage S}.

Definition safeParse (raw : option text) : json :=
  match raw with
  | None => JArray []
  | Some (TRaw _) => JArray []
  | Some (TJson v) => v
  end.

Definition loadLocal (s : S) (key : string) : json := safeParse (getItem s key).

(** [saveLocal] lets the exception of [setItem] escape to its caller. *)
Definition saveLocal (s : S) (key : string) (arr : list record) : S + DOMException :=
  setItem s key (JSON_stringify arr).

Definition quota_alert : string :=
  "Failed to save locally: storage quota exceeded. Clear some items in Admin or use smaller images.".

Definition safeSaveLocal (s : S) (key : string) (arr : list record)
  : S * list effect * bool :=
  match setItem s key (JSON_stringify arr) with
  | inl s1 => (s1, [Write key (JSON_stringify arr) true], true)
  | inr err =>
      let first := Write key (JSON_stringify arr) false in
      match err with
      | QuotaExceededError =>
          let other := if String.eqb key "local-products"
                       then "local-categories" else "local-products" in
          match safeParse (getItem s key) with
          | JArray existing =>
              if 2 <? Z.of_nat (List.length existing) then
                let keep := JS.slice existing 0
                              (Z.max 1 (Z.of_nat (List.length existing) / 2)) in
                match setItem s key (JSON_stringify keep) with
                | inl s2 =>
                    match setItem s2 key (JSON_stringify arr) with
                    | inl s3 =>
                        (s3, [first; ConsoleWarn;
                              Write key (JSON_stringify keep) true;
                              Write key (JSON_stringify arr) true], true)
                    | inr _ =>
                        (s2, [first; ConsoleWarn;
                              Write key (JSON_stringify keep) true;
                              Write key (JSON_stringify arr) false;
                              Alert quota_alert], false)
                    end
                | inr _ =>
                    (s, [first; ConsoleWarn;
                         Write key (JSON_stringify keep) false;
                         Alert quota_alert], false)
                end
              else (s, [first; ConsoleWarn; Alert quota_alert], false)
          | JOther => (s, [first; ConsoleWarn; Alert quota_alert], false)
          end
      | OtherError => (s, [first; Alert quota_alert], false)
      end
  end.

(** Submit handler of [addProductForm], from the title check on; [now] is
    the value [Date.now()] returns.  An exception ([unshift] on a value
    that is no array, [setItem] throwing) is caught and logged by the
    handler, which leaves the store as it was. *)
Definition addProduct (s : S) (now : Z) (f : product_form) : S :=
  if negb (JS.truthy (form_title f)) then s
  else
    let payload := Product (mkProduct now (form_title f) (form_price f)
                              (form_description f) (form_image f) (form_category f)) in
    match loadLocal s PRODUCTS_KEY with
    | JArray arr =>
        match saveLocal s PRODUCTS_KEY (payload :: arr) with
        | inl s' => s'
        | inr _ => s
        end
    | JOther => s
    end.

(** Click handler of a Delete button rendered for the product with
    identifier [pid]. *)
Definition deleteProduct (s : S) (pid : Z) : S :=
  match loadLocal s PRODUCTS_KEY with
  | JArray arr =>
      let keep := List.filter (fun x => negb (record_id x =? pid)) arr in
      match saveLocal s PRODUCTS_KEY keep with
      | inl s' => s'
      | inr _ => s
      end
  | JOther => s
  end.

(** The recovery policy of [safeSaveLocal], scenario by scenario.  [k] is
    the key of the stored array the recovery inspects and truncates, and
    [keep] the first half of that array in stored order. *)
Inductive quota_policy (s : S) (key : string) (arr : list record)
  : S * list effect * bool -> Prop :=
| saved_at_once (s1 : S) (log : list effect) :
    setItem s key (JSON_stringify arr) = inl s1 ->
    written log = [(key, JSON_stringify arr)] -> alerts log = [] ->
    quota_policy s key arr (s1, log, true)
| abandoned_other_error (log : list effect) :
    setItem s key (JSON_stringify arr) = inr OtherError ->
    written log = [(key, JSON_stringify arr)] -> alerts log = [quota_alert] ->
    quota_policy s key arr (s, log, false)
| abandoned_nothing_to_truncate (k : string) (log : list effect) :
    setItem s key (JSON_stringify arr) = inr QuotaExceededError ->
    (forall existing, safeParse (getItem s k) = JArray existing ->
                      (List.length existing <= 2)%nat) ->
    written log = [(key, JSON_stringify arr)] -> alerts log = [quota_alert] ->
    quota_policy s key arr (s, log, false)
| abandoned_truncation_failed (k : string) (existing : list record)
    (err : DOMException) (log : list effect) :
    setItem s key (JSON_stringify arr) = inr QuotaExceededError ->
    safeParse (getItem s k) = JArray existing -> (2 < List.length existing)%nat ->
    let keep := firstn (List.length existing / 2) existing in
    setItem s k (JSON_stringify keep) = inr err ->
    written log = [(key, JSON_stringify arr); (k, JSON_stringify keep)] ->
    alerts log = [quota_alert] ->
    quota_policy s key arr (s, log, false)
| saved_after_truncation (k : string) (existing : list record)
    (s2 s3 : S) (log : list effect) :
    setItem s key (JSON_stringify arr) = inr QuotaExceededError ->
    safeParse (getItem s k) = JArray existing -> (2 < List.length existing)%nat ->
    let keep := firstn (List.length existing / 2) existing in
    setItem s k (JSON_stringify keep) = inl s2 ->
    setItem s2 key (JSON_stringify arr) = inl s3 ->
    written log = [(key, JSON_stringify arr); (k, JSON_stringify keep);
                   (key, JSON_stringify arr)] ->
    alerts log = [] ->
    quota_policy s key arr (s3, log, true)
| abandoned_after_retry (k : string) (existing : list record)
    (s2 : S) (err : DOMException) (log : list effect) :
    setItem s key (JSON_stringify arr) = inr QuotaExceededError ->
    safeParse (getItem s k) = JArray existing -> (2 < List.length existing)%nat ->
    let keep := firstn (List.length existing / 2) existing in
    setItem s k (JSON_stringify keep) = inl s2 ->
    setItem s2 key (JSON_stringify arr) = inr err ->
    written log = [(key, JSON_stringify arr); (k, JSON_stringify keep);
                   (key, JSON_stringify arr)] ->
    alerts log = [quota_alert] ->
    quota_policy s key arr (s2, log, false).

Definition run_op (s : S) (o : op) : S :=
  match o with
  | Add now f => addProduct s now f
  | Delete pid => deleteProduct s pid
  end.

Definition run_ops (s : S) (ops : list op) : S := List.fold_left run_op ops s.

(** The identifiers of the stored product collection. *)
Definition stored_ids (s : S) : list Z :=
  match loadLocal s PRODUCTS_KEY with
  | JArray arr => List.map record_id arr
  | JOther => []
  end.

End LocalStore.

(** *** Image conversion *)

(** Unit roundoff of IEEE-754 double precision. *)
Definition float_u : Q := 1 # 9007199254740992.

(** The two floating point operations of the resizer.  A result differs
    from the exact quotient or product by a relative error of at most
    [float_u], as it does for doubles away from overflow and underflow. *)
Class FloatOps := {
  fdiv : Q -> Q -> Q;
  fmul : Q -> Q -> Q;
  fdiv_error : forall x y, (0 < x)%Q -> (0 < y)%Q ->
    (Qabs (fdiv x y - x / y) <= float_u * (x / y))%Q;
  fmul_error : forall x y, (0 <= x)%Q -> (0 <= y)%Q ->
    (Qabs (fmul x y - x * y) <= float_u * (x * y))%Q
}.

(** [Math.round]: the nearest integer, halves upwards. *)
Definition Math_round (x : Q) : Z := Qfloor (x + (1 # 2)).

(** [Math.min(1, maxWidth / w, maxHeight / h)]. *)
Definition scale_ratio `{FloatOps} (w h maxWidth maxHeight : Z) : Q :=
  Qmin 1 (Qmin (fdiv (inject_Z maxWidth) (inject_Z w))
               (fdiv (inject_Z maxHeight) (inject_Z h))).

(** The same factor in exact arithmetic, for comparison. *)
Definition exact_ratio (w h maxWidth maxHeight : Z) : Q :=
  Qmin 1 (Qmin (inject_Z maxWidth / inject_Z w) (inject_Z maxHeight / inject_Z h)).

(** The canvas size computed in [img.onload]. *)
Definition scaled_size `{FloatOps} (w h maxWidth maxHeight : Z) : Z * Z :=
  let ratio := scale_ratio w h maxWidth maxHeight in
  (Math_round (fmul (inject_Z w) ratio), Math_round (fmul (inject_Z h) ratio)).

Record File := mkFile {
  file_name : string;
  file_size : Z
}.

(** The browser services the conversion calls.  [None] stands for the
    error event or exception the script turns into a rejection. *)
Record browser := mkBrowser {
  (* FileReader.readAsDataURL on the file, at the given attempt *)
  readAsDataURL : File -> nat -> option string;
  (* new Image() with this source: onload with width and height, or onerror *)
  loadImage : string -> option (Z * Z);
  (* createElement('canvas'), getContext('2d') and drawImage of the source
     at w x h: whether they complete; [false] is an exception, for
     instance from a context that is null *)
  drawImage : string -> Z -> Z -> bool;
  (* canvas.toDataURL('image/jpeg', quality) of the source drawn at w x h *)
  canvas_toDataURL : string -> Z -> Z -> Q -> option string
}.

(** How a promise of the conversion ends: [resolve] is called, [reject]
    is called, or neither ever is. *)
Inductive settlement (A : Type) :=
| Fulfilled (v : A)
| Refused
| Unsettled.

Arguments Fulfilled {A} v.
Arguments Refused {A}.
Arguments Unsettled {A}.

Section Images.
Context `{FloatOps} (B : browser).

Definition fileToDataURL (file : option File) (attempt : nat) : option string :=
  match file with
  | None => Some ""
  | Some f => readAsDataURL B f attempt
  end.

(** The canvas is created and drawn on in [img.onload], before the [try]
    that surrounds [toDataURL]: an exception there leaves the handler
    without [resolve] or [reject] being called. *)
Definition resizeImageFileToDataURL (file : option File)
    (maxWidth maxHeight : Z) (quality : Q) (attempt : nat) : settlement string :=
  match file with
  | None => Fulfilled ""
  | Some f =>
      match readAsDataURL B f attempt with
      | None => Refused
      | Some src =>
          match loadImage B src with
          | None => Refused
          | Some (w, h) =>
              let '(w', h') := scaled_size w h maxWidth maxHeight in
              if drawImage B src w' h'
              then match canvas_toDataURL B src w' h' quality with
                   | Some dataUrl => Fulfilled dataUrl
                   | None => Refused
                   end
              else Unsettled
          end
      end
  end.

Definition THRESHOLD : Z := 200 * 1024.

(** The promise of [fileToDataURL], which always settles. *)
Definition settled (r : option string) : settlement string :=
  match r with
  | Some v => Fulfilled v
  | None => Refused
  end.

(** The [catch] runs when the awaited promise is rejected; while that
    promise stays unsettled, the function does not return. *)
Definition convertFileForStorage (file : option File) : settlement string :=
  match file with
  | None => Fulfilled ""
  | Some f =>
      let attempt :=
        if file_size f >? THRESHOLD
        then resizeImageFileToDataURL file 1000 1000 (7 # 10) 0
        else settled (fileToDataURL file 0) in
      match attempt with
      | Fulfilled dataUrl => Fulfilled dataUrl
      | Refused =>
          match fileToDataURL file 1 with
          | Some dataUrl => Fulfilled dataUrl
          | None => Fulfilled ""
          end
      | Unsettled => Unsettled
      end
  end.

End Images.

(** *** HTML escaping *)

(** The argument of [escapeHtml]. *)
Inductive js_text :=
| Undefined
| Null
| Str (s : string).

(** [String(str || '')]. *)
Definition String_or_empty (str : js_text) : string :=
  match str with
  | Undefined => ""
  | Null => ""
  | Str s => s
  end.

Definition quote_char : ascii := "034"%char.
Definition apos_char : ascii := "039"%char.

(** The replacement the callback of [replace] looks up for one character
    matched by the pattern (ampersand, angle brackets, double and single
    quote); other characters stay. *)
Definition escape_char (c : ascii) : string :=
  if Ascii.eqb c "&" then "&amp;"
  else if Ascii.eqb c "<" then "&lt;"
  else if Ascii.eqb c ">" then "&gt;"
  else if Ascii.eqb c quote_char then "&quot;"
  else if Ascii.eqb c apos_char then "&#39;"
  else String c EmptyString.

Fixpoint replace_all (s : string) : string :=
  match s with
  | EmptyString => EmptyString
  | String c s' => escape_char c ++ replace_all s'
  end.

Definition escapeHtml (str : js_text) : string := replace_all (String_or_empty str).

(** The entities the replacement table holds. *)
Definition entities : list string := ["&amp;"; "&lt;"; "&gt;"; "&quot;"; "&#39;"].

(** The characters that must not reach the markup unescaped. *)
Definition markup_chars : list ascii := ["<"%char; ">"%char; quote_char; apos_char].

(** A text that is safe to inject: position by position, its characters
    are no markup characters, and an ampersand starts an entity. *)
Definition safe_output (out : string) : Prop :=
  forall (i : nat) (c : ascii),
    String.get i out = Some c ->
    ~ List.In c markup_chars /\
    (c = "&"%char ->
     exists e, List.In e entities /\ String.substring i (String.length e) out = e).

(** *** The forms of the local admin *)

(** White space and line terminators among the characters below 256, the
    ones [String.prototype.trim] removes. *)
Definition is_space (c : ascii) : bool :=
  let n := nat_of_ascii c in
  ((9 <=? n)%nat && (n <=? 13)%nat) || (n =? 32)%nat || (n =? 160)%nat.

Fixpoint trimStart (s : string) : string :=
  match s with
  | EmptyString => EmptyString
  | String c s' => if is_space c then trimStart s' else s
  end.

Fixpoint trimEnd (s : string) : string :=
  match s with
  | EmptyString => EmptyString
  | String c s' =>
      match trimEnd s' with
      | EmptyString => if is_space c then EmptyString else String c EmptyString
      | rest => String c rest
      end
  end.

Definition trim (s : string) : string := trimEnd (trimStart s).



(** The inputs of the product form as the handlers find them; [None] is
    an element that is missing from the page, or no selected file. *)
Record product_inputs := mkInputs {
  input_title : string;                    (* value of #prod-title *)
  input_price : Q;                         (* Number(value of #prod-price) || 0 *)
  input_desc : option string;              (* value of #prod-desc *)
  input_image : option string;             (* value of #prod-image *)
  input_file : option File;          (* files[0] of #prod-image-file *)
  input_category : option (Z * string)     (* the stored category selected, or null *)
}.

Definition set_input_image (i : product_inputs) (value : string) : product_inputs :=
  {| input_title := input_title i; input_price := input_price i; input_desc := input_desc i;
     input_image := match input_image i with Some _ => Some value | None => None end;
     input_file := input_file i; input_category := input_category i |}.

Definition select_file (i : product_inputs) (f : option File) : product_inputs :=
  {| input_title := input_title i; input_price := input_price i; input_desc := input_desc i;
     input_image := input_image i;
     input_file := f; input_category := input_category i |}.

Section Forms.
Context `{FloatOps} (B : browser) {S : Type} `{Storage S}.

(** [change] handler of #prod-image-file, run to its end: the file just
    selected is read as a data URL, which is put in #prod-image. *)
Definition onProductFileChange (i : product_inputs) (f : option File) (attempt : nat)
  : product_inputs :=
  match f with
  | None => set_input_image (select_file i None) ""
  | Some file =>
      match fileToDataURL B (Some file) attempt with
      | Some data => set_input_image (select_file i f) data
      | None => select_file i f
      end
  end.

(** The image the submit handler stores: the text input if it holds
    text, otherwise the converted file, awaited; a rejected conversion
    leaves the image empty. *)
Definition submitted_image (i : product_inputs) : settlement string :=
  let image := match input_image i with
               | Some value => if JS.truthy (trim value) then trim value else ""
               | None => ""
               end in
  if negb (JS.truthy image)
  then match input_file i with
       | Some file =>
           match convertFileForStorage B (Some file) with
           | Fulfilled dataUrl => Fulfilled dataUrl
           | Refused => Fulfilled ""
           | Unsettled => Unsettled
           end
       | None => Fulfilled image
       end
  else Fulfilled image.


(** The image the category form stores: the text input if it holds text,
    otherwise the selected file as it is; a failing read leaves it
    empty. *)
Definition category_image (url : option string) (f : option File) (attempt : nat)
  : string :=
  let image := match url with
               | Some value => if JS.truthy (trim value) then trim value else ""
               | None => ""
               end in
  if negb (JS.truthy image)
  then match f with
       | Some file =>
           match fileToDataURL B (Some file) attempt with
           | Some data => data
           | None => image
           end
       | None => image
       end
  else image.

(** Submit handler of [addCategoryForm]; [name] is the value of #cat-name,
    or [None] when the element is missing.  Nothing catches an exception
    here: the handler ends and the store stays as it was. *)
Definition addCategory (s : S) (now : Z) (name : option string)
    (url : option string) (f : option File) (attempt : nat) : S :=
  let payload := Category (mkCategory now
                             (match name with Some n => trim n | None => "" end)
                             (category_image url f attempt)) in
  match loadLocal s CATEGORIES_KEY with
  | JArray arr =>
      match saveLocal s CATEGORIES_KEY (payload :: arr) with
      | inl s' => s'
      | inr _ => s
      end
  | JOther => s
  end.

(** Click handler of a Delete button rendered for the category [cid]. *)
Definition deleteCategory (s : S) (cid : Z) : S :=
  match loadLocal s CATEGORIES_KEY with
  | JArray arr =>
      let keep := List.filter (fun x => negb (record_id x =? cid)) arr in
      match saveLocal s CATEGORIES_KEY keep with
      | inl s' => s'
      | inr _ => s
      end
  | JOther => s
  end.

(** [window.adminClient.getLocalCategories]. *)
Definition getLocalCategories (s : S) : json := loadLocal s CATEGORIES_KEY.

End Forms.

End LocalAdmin.

(** ** Concrete instances of the interfaces *)

(** Exact arithmetic: operations without rounding error. *)
Lemma exact_fdiv_error (x y : Q) :
  (0 < x)%Q -> (0 < y)%Q -> (Qabs (x / y - x / y) <= LocalAdmin.float_u * (x / y))%Q.
Proof.
  intros Hx Hy.
  assert (E : (x / y - x / y == 0)%Q) by ring.
  rewrite E. simpl.
  apply Qmult_le_0_compat; [discriminate|].
  apply Qlt_le_weak, Qlt_shift_div_l; [assumption|]. now rewrite Qmult_0_l.
Qed.

Lemma exact_fmul_error (x y : Q) :
  (0 <= x)%Q -> (0 <= y)%Q -> (Qabs (x * y - x * y) <= LocalAdmin.float_u * (x * y))%Q.
Proof.
  intros Hx Hy.
  assert (E : (x * y - x * y == 0)%Q) by ring.
  rewrite E. simpl.
  apply Qmult_le_0_compat; [discriminate|].
  now apply Qmult_le_0_compat.
Qed.

Definition ExactOps : LocalAdmin.FloatOps :=
  {| LocalAdmin.fdiv := Qdiv; LocalAdmin.fmul := Qmult;
     LocalAdmin.fdiv_error := exact_fdiv_error;
     LocalAdmin.fmul_error := exact_fmul_error |}.

(** A browser that reads every file, decodes every data URL as a 4000 by
    3000 image and encodes a canvas by naming its size. *)
Definition sample_browser : LocalAdmin.browser :=
  LocalAdmin.mkBrowser
    (fun f _ => Some ("data:" ++ LocalAdmin.file_name f))
    (fun _ => Some (4000, 3000))
    (fun _ _ _ => true)
    (fun _ w h _ =>
       if (w =? 1000) && (h =? 750) then Some "data:image/jpeg;1000x750"
       else Some "data:image/jpeg").


(** A browser that reads every file and decodes none as an image. *)
Definition plain_browser : LocalAdmin.browser :=
  LocalAdmin.mkBrowser
    (fun f _ => Some ("data:" ++ LocalAdmin.file_name f))
    (fun _ => None)
    (fun _ _ _ => true)
    (fun _ _ _ _ => None).

(** The product form with a title and an empty image input. *)
Definition sample_inputs : LocalAdmin.product_inputs :=
  LocalAdmin.mkInputs "  Ring " 950 (Some "") (Some "") None None.

(** A localStorage that counts characters against a quota. *)
Module QuotaStorage.
Import LocalAdmin.

Record store := mkStore {
  content : gmap string text;
  quota : nat
}.

Definition record_length (r : record) : nat :=
  match r with
  | Product p =>
      64 + String.length (title p) + String.length (description p)
      + String.length (image p)
  | Category c => 32 + String.length (cat_name c) + String.length (cat_image c)
  end.

Definition text_length (t : text) : nat :=
  match t with
  | TJson (JArray l) => 2 + List.fold_right (fun r n => record_length r + 1 + n)%nat 0%nat l
  | TJson JOther => 4
  | TRaw s => String.length s
  end.

Definition usage (m : gmap string text) : nat :=
  map_fold (fun k v n => String.length k + text_length v + n)%nat 0%nat m.

Definition get (s : store) (key : string) : option text := content s !! key.

Definition set (s : store) (key : string) (v : text) : store + DOMException :=
  let m := <[key := v]> (content s) in
  if (usage m <=? quota s)%nat then inl (mkStore m (quota s))
  else inr QuotaExceededError.

Lemma get_set (s : store) (k : string) (v : text) (s' : store) (k' : string) :
  set s k v = inl s' ->
  get s' k' = if String.eqb k k' then Some v else get s k'.
Proof.
  unfold set, get. destruct (_ <=? _)%nat; [|discriminate].
  intros [= <-]. simpl.
  destruct (String.eqb_spec k k') as [->|Hne].
  - apply lookup_insert_eq.
  - now apply lookup_insert_ne.
Qed.

Definition empty (q : nat) : store := mkStore ∅ q.

(** Sample data: two products and two categories that fill the quota. *)
Definition ring : record := Product (mkProduct 1700000000001 "Ring" 950 "" "" None).
Definition chain : record := Product (mkProduct 1700000000002 "Chain" 1200 "" "" None).
Definition bangle : record := Product (mkProduct 1700000000003 "Bangle" 400 "" "" None).
Definition rings : record := Category (mkCategory 1 "rings" "").
Definition chains : record := Category (mkCategory 2 "chains" "").

Definition full : store :=
  mkStore (<[PRODUCTS_KEY := JSON_stringify [chain; ring]]>
           (<[CATEGORIES_KEY := JSON_stringify [chains; rings]]> ∅)) 250.

Definition sample_form (title : string) : product_form := mkForm title 100 "" "" None.

Definition new_products : list record := [bangle; chain; ring].

(** Sample data: four products and four categories that fill the quota. *)
Definition pendant : record := Product (mkProduct 1700000000004 "Pendant" 700 "" "" None).
Definition anklet : record := Product (mkProduct 1700000000005 "Anklet" 300 "" "" None).
Definition bangles : record := Category (mkCategory 3 "bangles" "").
Definition pendants : record := Category (mkCategory 4 "pendants" "").

Definition crowded : store :=
  mkStore (<[PRODUCTS_KEY := JSON_stringify [pendant; bangle; chain; ring]]>
           (<[CATEGORIES_KEY := JSON_stringify [pendants; bangles; chains; rings]]> ∅)) 474.

End QuotaStorage.

#[export] Instance QuotaStorage_Storage : LocalAdmin.Storage QuotaStorage.store :=
  {| LocalAdmin.getItem := QuotaStorage.get;
     LocalAdmin.setItem := QuotaStorage.set;
     LocalAdmin.getItem_setItem := QuotaStorage.get_set |}.

(** ** Properties of the admin panel *)

Section AdminPanelFacts.
Import AdminPanel.

(** *** Arithmetic of [Math.ceil] and [slice] *)

Lemma ceil_div_bounds (a b : Z) :
  0 < b -> (JS.ceil_div a b - 1) * b < a <= JS.ceil_div a b * b.
Proof.
  intros Hb. unfold JS.ceil_div.
  pose proof (Z.div_mod (- a) b ltac:(lia)) as E.
  pose proof (Z.mod_pos_bound (- a) b Hb) as M.
  revert E M. generalize ((- a) / b) ((- a) mod b). intros q r E M.
  split; nia.
Qed.

Lemma ceil_div_ge (a b p : Z) :
  0 < b -> (p - 1) * b < a -> p <= JS.ceil_div a b.
Proof.
  intros Hb Hp. pose proof (ceil_div_bounds a b Hb) as [_ U]. nia.
Qed.

Lemma ceil_div_nonneg (a b : Z) : 0 < b -> 0 <= a -> 0 <= JS.ceil_div a b.
Proof.
  intros Hb Ha. pose proof (ceil_div_bounds a b Hb) as [_ U]. nia.
Qed.

(** For indices that are not negative, [slice] is [take] after [drop]. *)
Lemma slice_nonneg {A : Type} (l : list A) (start len : Z) :
  0 <= start -> 0 <= len ->
  JS.slice l start (start + len) = take (Z.to_nat len) (drop (Z.to_nat start) l).
Proof.
  intros Hs Hl. unfold JS.slice.
  destruct (Z.ltb_spec start 0) as [?|_]; [lia|].
  destruct (Z.ltb_spec (start + len) 0) as [?|_]; [lia|].
  set (n := Z.of_nat (List.length l)).
  destruct (Z.le_gt_cases start n) as [Hle|Hgt].
  - rewrite (Z.min_l start n) by lia.
    destruct (Z.le_gt_cases (start + len) n) as [Hle'|Hgt'].
    + rewrite Z.min_l by lia. f_equal. lia.
    + rewrite Z.min_r by lia.
      rewrite !take_ge; try reflexivity; rewrite length_drop; lia.
  - rewrite !Z.min_r by lia. rewrite Z.sub_diag.
    rewrite (drop_ge l (Z.to_nat start)) by lia.
    now rewrite take_0, take_nil.
Qed.

Lemma getPaginatedProducts_take_drop (this : t) (ps : list product) :
  1 <= currentPage this -> 1 <= itemsPerPage this ->
  getPaginatedProducts this ps =
  take (Z.to_nat (itemsPerPage this))
       (drop (Z.to_nat ((currentPage this - 1) * itemsPerPage this)) ps).
Proof.
  intros Hp Hn. unfold getPaginatedProducts. apply slice_nonneg; nia.
Qed.

(** The pages [1 .. m] laid end to end are the first [m * n] elements. *)
Lemma pages_concat {A : Type} (l : list A) (n m : nat) :
  List.concat (List.map (fun k => take n (drop (k * n) l)) (List.seq 0 m))
  = take (m * n) l.
Proof.
  induction m as [|m IH].
  - reflexivity.
  - rewrite List.seq_S, List.map_app, List.concat_app, IH. simpl.
    rewrite app_nil_r, take_take_drop. f_equal. lia.
Qed.

(** C9.  The stock class depends on the stock count alone: it is the low
    class for counts up to 5, the medium class from 6 to 20 and the high
    class above 20. *)
Theorem getStockClass_by_count (s : Z) :
  (s <= 5 -> getStockClass s = "stock-low") /\
  (6 <= s <= 20 -> getStockClass s = "stock-medium") /\
  (20 < s -> getStockClass s = "stock-high").
Proof.
  unfold getStockClass.
  destruct (Z.leb_spec s 5), (Z.leb_spec s 20); repeat split; intros; lia || reflexivity.
Qed.

(** C8.  For a page number of at least 1, the page shown consists of the
    elements of the filtered list at the indices from
    [(page - 1) * pageSize] up to, not including, [page * pageSize]; it
    has at most [pageSize] elements; and the pages 1 to
    [ceil (n / pageSize)] laid end to end are exactly the filtered list,
    so they neither overlap nor leave a gap. *)
Theorem getPaginatedProducts_partition (this : t) (filtered : list product) :
  1 <= currentPage this ->
  1 <= itemsPerPage this ->
  let size := Z.to_nat (itemsPerPage this) in
  let start := Z.to_nat ((currentPage this - 1) * itemsPerPage this) in
  let pages := JS.ceil_div (Z.of_nat (List.length filtered)) (itemsPerPage this) in
  (forall i : nat,
      getPaginatedProducts this filtered !! i =
      if (i <? size)%nat then filtered !! (start + i)%nat else None) /\
  (List.length (getPaginatedProducts this filtered) <= size)%nat /\
  List.concat (List.map (fun p => getPaginatedProducts (set_currentPage this p) filtered)
                        (JS.range1 pages)) = filtered.
Proof.
  intros Hp Hn size start pages.
  rewrite (getPaginatedProducts_take_drop this filtered Hp Hn).
  fold size start. repeat split.
  - intros i. destruct (Nat.ltb_spec i size).
    + now rewrite lookup_take_lt, lookup_drop.
    + now apply lookup_take_ge.
  - rewrite length_take. lia.
  - unfold JS.range1. rewrite List.map_map.
    assert (Hpages : 0 <= pages)
      by (apply ceil_div_nonneg; lia).
    pose proof (ceil_div_bounds (Z.of_nat (List.length filtered))
                  (itemsPerPage this) ltac:(lia)) as [_ Hcover].
    fold pages in Hcover.
    transitivity (take (Z.to_nat pages * size) filtered);
      [|apply take_ge; subst size; nia].
    rewrite <- pages_concat, <- List.seq_shift, List.map_map.
    f_equal. apply List.map_ext_in. intros k _.
    rewrite getPaginatedProducts_take_drop; simpl; try lia.
    f_equal. f_equal. subst size. nia.
Qed.

(** The mock products on page 1 with a page size of 10. *)
Lemma getPaginatedProducts_partition_witness :
  let this := loadMockProducts (constructor "" "") in
  List.length (getPaginatedProducts this mockProducts) = 4%nat /\
  List.concat (List.map (fun p => getPaginatedProducts (set_currentPage this p) mockProducts)
                        (JS.range1 1)) = mockProducts.
Proof.
  pose proof (getPaginatedProducts_partition
                (loadMockProducts (constructor "" "")) mockProducts
                ltac:(vm_compute; discriminate) ltac:(vm_compute; discriminate))
    as [_ [_ Hcat]].
  split; [reflexivity | exact Hcat].
Defined.

(** C2, as stated, fails: searching the mock products for "ring" does not
    leave exactly one product. *)
Lemma search_ring_not_one_match :
  List.length (getFilteredProducts (searching (constructor "" "") "ring" "")) <> 1%nat.
Proof. vm_compute. discriminate. Qed.

(** C2, amended.  Searching the four mock products for "ring" with no
    category filter yields exactly two products, in this order: "Diamond
    Ring" and "Pearl Earrings" (the lower-cased name "pearl earrings"
    contains "ring"). *)
Theorem search_ring_two_matches (this : t) :
  List.map name (getFilteredProducts (searching this "ring" ""))
  = ["Diamond Ring"; "Pearl Earrings"]
  /\ JS.includes (JS.toLowerCase "Pearl Earrings") "ring" = true.
Proof. split; reflexivity. Qed.

(** *** The pagination state *)

Ltac split_inv := unfold page_inv; split; [|split; [|split]].

Lemma page_nonempty_bound (this : t) (ps : list product) :
  1 <= currentPage this -> 1 <= itemsPerPage this ->
  getPaginatedProducts this ps <> [] ->
  (currentPage this - 1) * itemsPerPage this < Z.of_nat (List.length ps).
Proof.
  intros Hp Hn Hne.
  rewrite getPaginatedProducts_take_drop in Hne by assumption.
  destruct (Z.lt_ge_cases ((currentPage this - 1) * itemsPerPage this)
                          (Z.of_nat (List.length ps))) as [?|Hge]; [assumption|].
  exfalso. apply Hne. rewrite drop_ge by lia. apply take_nil.
Qed.

Lemma range1_bounds (n i : Z) : List.In i (JS.range1 n) -> 1 <= i <= n.
Proof.
  unfold JS.range1. rewrite List.in_map_iff. intros [k [<- Hk]].
  apply List.in_seq in Hk. lia.
Qed.

Lemma pageControls_target (this : t) (total i : Z) (c : control) (page : Z) :
  List.In c (pageControls this total i) -> click_target c = Some page -> page = i.
Proof.
  unfold pageControls.
  destruct (_ || _ || _); [|destruct (_ || _)]; simpl.
  - intros [<-|[]]. simpl. congruence.
  - intros [<-|[]]. discriminate.
  - intros [].
Qed.

Lemma renderPagination_controls (this : t) (n : Z) (c : control) (page : Z) :
  1 <= currentPage this <= JS.ceil_div n (itemsPerPage this) ->
  List.In c (pagination (renderPagination this n)) ->
  click_target c = Some page ->
  1 <= page <= JS.ceil_div n (itemsPerPage this).
Proof.
  intros Hcp. unfold renderPagination. simpl.
  set (total := JS.ceil_div n (itemsPerPage this)) in *.
  destruct (Z.leb_spec total 1) as [_|Hgt]; [intros []|].
  intros [<-|Hin].
  - simpl. destruct (Z.eqb_spec (currentPage this) 1); [discriminate|].
    intros [= <-]. lia.
  - apply List.in_app_or in Hin as [Hin|[<-|[]]].
    + apply List.in_flat_map in Hin as [i [Hi Hc]].
      intros Ht. rewrite (pageControls_target _ _ _ _ _ Hc Ht).
      now apply range1_bounds.
    + simpl. destruct (Z.eqb_spec (currentPage this) total); [discriminate|].
      intros [= <-]. lia.
Qed.

(** Rendering restores the invariant from its three state conditions,
    whatever the product list and the inputs are. *)
Lemma renderProducts_inv (this : t) :
  itemsPerPage this = 10 ->
  1 <= currentPage this <= Z.max 1 (totalPages this) ->
  (forall c page, List.In c (pagination this) -> click_target c = Some page ->
                  1 <= page <= totalPages this) ->
  page_inv (renderProducts this).
Proof.
  intros Hsize Hcp Hbar. unfold renderProducts.
  destruct (getPaginatedProducts this (getFilteredProducts this)) as [|r rows] eqn:Hpage.
  - split_inv; simpl; try assumption. intros Hrows. now contradiction Hrows.
  - assert (Hlt : (currentPage this - 1) * itemsPerPage this
                  < Z.of_nat (List.length (getFilteredProducts this))).
    { apply page_nonempty_bound; try lia. rewrite Hpage. discriminate. }
    assert (Hle : currentPage this
                  <= JS.ceil_div (Z.of_nat (List.length (getFilteredProducts this)))
                                 (itemsPerPage this))
      by (apply ceil_div_ge; lia).
    split_inv; simpl; try assumption.
    + lia.
    + intros c page Hin Ht.
      apply (renderPagination_controls (set_tableBody this (r :: rows)) _ c page);
        simpl; [lia | exact Hin | exact Ht].
    + intros _. split; [|exact Hle]. exists (categoryFilter this).
      unfold rendered_with, with_category, getFilteredProducts, getPaginatedProducts
        in Hpage |- *.
      simpl. now rewrite Hpage.
Qed.

(** Rebuilding the category select touches neither the table nor the
    pagination state, and the rendering the table stems from read the
    select before. *)
Lemma loadCategories_frame (this : t) (d : selects) (net : Net.network categories_json) :
  exists cat, loadCategories this d net = set_inputs this (searchProducts this) cat.
Proof.
  assert (Hsame : this = set_inputs this (searchProducts this) (categoryFilter this))
    by now destruct this.
  unfold loadCategories, populateCategorySelects.
  destruct (fst (apiRequest net)) as [[l| |]|e|];
    try (exists (categoryFilter this); exact Hsame).
  - now eexists.
  - destruct (productCategory d || editProductCategory d);
      [exists (categoryFilter this); exact Hsame | now eexists].
Qed.

Lemma loadCategories_inv (this : t) (d : selects) (net : Net.network categories_json) :
  page_inv this -> page_inv (loadCategories this d net).
Proof.
  destruct (loadCategories_frame this d net) as [cat ->].
  intros (Hsize & Hcp & Hbar & Hrows).
  split_inv; simpl; try assumption.
Qed.

Lemma constructor_inv (search cat : string) : page_inv (constructor search cat).
Proof.
  split_inv; simpl; try lia; try contradiction; reflexivity.
Qed.

Lemma loadProducts_inv (this : t) (net : Net.network api_json) :
  page_inv this -> page_inv (loadProducts this net).
Proof.
  intros (Hsize & Hcp & Hbar & _).
  unfold loadProducts, apiRequest, loadMockProducts.
  destruct net as [ms [|ok status [[l|l|]| |]]|]; simpl; try destruct ok; simpl;
    try (now apply renderProducts_inv).
  all: split_inv; simpl; try assumption; intros Hrows; now contradiction Hrows.
Qed.

Lemma ui_reachable_inv (this : t) : ui_reachable this -> page_inv this.
Proof.
  induction 1 as [search cat net|this d net _ IH|this c page _ IH Hin Ht
                 |this search cat _ IH|this _ IH|this net _ IH].
  6: now apply loadProducts_inv.
  - apply loadProducts_inv, constructor_inv.
  - now apply loadCategories_inv.
  - destruct IH as (Hsize & Hcp & Hbar & _).
    apply renderProducts_inv; simpl; try assumption.
    specialize (Hbar c page Hin Ht). lia.
  - destruct IH as (Hsize & Hcp & Hbar & _).
    apply renderProducts_inv; simpl; try assumption. lia.
  - destruct IH as (Hsize & Hcp & Hbar & _).
    now apply renderProducts_inv.
Qed.

(** C3, as stated, fails.  With an empty catalogue the state after
    initialisation has page 1 and a page count of 0, both as stored and as
    derived from the filter result; and a call of [goToPage] with page 5
    on the four mock products leaves the page at 5 with a page count
    of 1. *)
Lemma page_out_of_range :
  (reachable empty_catalogue
   /\ ~ 1 <= currentPage empty_catalogue <= totalPages empty_catalogue
   /\ ~ 1 <= currentPage empty_catalogue
          <= JS.ceil_div (Z.of_nat (List.length (getFilteredProducts empty_catalogue)))
                         (itemsPerPage empty_catalogue))
  /\
  (reachable mock_page5
   /\ currentPage mock_page5 = 5 /\ totalPages mock_page5 = 1
   /\ ~ 1 <= currentPage mock_page5 <= totalPages mock_page5).
Proof.
  split; [split; [|split]|split; [|split; [|split]]].
  - apply reachable_init.
  - vm_compute. intros [_ Hle]. now apply Hle.
  - vm_compute. intros [_ Hle]. now apply Hle.
  - apply reachable_call, reachable_init.
  - reflexivity.
  - reflexivity.
  - vm_compute. intros [_ Hle]. now apply Hle.
Qed.

(** A rendering that shows rows reads the category select as it is. *)
Lemma renderProducts_rendered (this : t) :
  tableBody (renderProducts this) <> [] ->
  rendered_with (renderProducts this) (categoryFilter this) /\
  categoryFilter (renderProducts this) = categoryFilter this.
Proof.
  unfold renderProducts.
  destruct (getPaginatedProducts this (getFilteredProducts this)) as [|r rows] eqn:Hpage.
  - intros Hne. now contradiction Hne.
  - intros _. split; [|reflexivity].
    unfold rendered_with, with_category, getFilteredProducts, getPaginatedProducts
      in Hpage |- *.
    simpl. now rewrite Hpage.
Qed.

(** Twelve products of which three are rings, filtered by the category
    "rings", and then the category select rebuilt: three rows and a page
    count of 1 are still on screen, while the select is back at its empty
    option, for which all twelve products match, on two pages. *)
Lemma select_rebuilt_without_rendering :
  ui_reachable rings_then_categories
  /\ List.length (tableBody rings_then_categories) = 3%nat
  /\ totalPages rings_then_categories = 1
  /\ categoryFilter rings_then_categories = ""
  /\ JS.ceil_div (Z.of_nat (List.length (getFilteredProducts rings_then_categories)))
                 (itemsPerPage rings_then_categories) = 2
  /\ rendered_with rings_then_categories "rings".
Proof.
  split; [|repeat split; reflexivity].
  apply ui_categories, ui_filter, ui_init.
Qed.

(** C3, amended.  In every state reachable from initialisation by filter
    changes, renderings, reloads of the product list, clicks on the
    pagination controls on screen (the only callers of [goToPage] in the
    page) and the arrival of the category list, the current page is at
    least 1 and at most the stored page count, or 1 while that count is
    still 0; every enabled control leads to a page between 1 and the
    stored count; and whenever the table shows rows, the current page
    lies within the stored count, the rows are that page of the products
    matching the search term and the category the select held at the
    last rendering, and the stored count is
    [ceil (filteredCount / pageSize)] for that filter result.  The count
    is recomputed by a rendering that shows rows, which reads the select
    as it is then; a filter change resets the page to 1; the arrival of
    the category list rebuilds the select and renders nothing. *)
Theorem ui_reachable_page_in_range (this : t) :
  ui_reachable this ->
  1 <= currentPage this <= Z.max 1 (totalPages this) /\
  (forall c page, List.In c (pagination this) -> click_target c = Some page ->
                  1 <= page <= totalPages this) /\
  (tableBody this <> [] ->
   (exists cat, rendered_with this cat) /\ 1 <= currentPage this <= totalPages this) /\
  (forall that, tableBody (renderProducts that) <> [] ->
                rendered_with (renderProducts that) (categoryFilter (renderProducts that))) /\
  (forall search cat, currentPage (filterProducts (set_inputs this search cat)) = 1) /\
  (forall d net, tableBody (loadCategories this d net) = tableBody this /\
                 totalPages (loadCategories this d net) = totalPages this /\
                 currentPage (loadCategories this d net) = currentPage this /\
                 pagination (loadCategories this d net) = pagination this).
Proof.
  intros Hreach. destruct (ui_reachable_inv this Hreach) as (Hsize & Hcp & Hbar & Hrows).
  split; [exact Hcp|]. split; [exact Hbar|]. split; [|split; [|split]].
  - intros Hne. destruct (Hrows Hne) as [Htotal Hle]. split; [exact Htotal | lia].
  - intros that Hne. destruct (renderProducts_rendered that Hne) as [Hr ->]. exact Hr.
  - intros search cat. unfold filterProducts, renderProducts.
    now destruct (getPaginatedProducts _ _).
  - intros d net. destruct (loadCategories_frame this d net) as [cat ->].
    repeat split.
Qed.

(** The mock products after a search for "ring". *)
Lemma ui_reachable_page_in_range_witness :
  1 <= currentPage (filterProducts (set_inputs
     (loadProducts (constructor "" "") (Net.Settles 10 Net.NetworkError)) "ring" ""))
    <= totalPages (filterProducts (set_inputs
     (loadProducts (constructor "" "") (Net.Settles 10 Net.NetworkError)) "ring" "")).
Proof.
  pose proof (ui_reachable_page_in_range _
    (ui_filter _ "ring" "" (ui_init "" "" (Net.Settles 10 Net.NetworkError))))
    as (_ & _ & Hrows & _).
  apply Hrows. vm_compute. discriminate.
Defined.

End AdminPanelFacts.

(** ** Properties of the local admin script *)

Section EscapeFacts.
Import LocalAdmin.

Lemma escape_char_cases (c : ascii) :
  (c = "&"%char /\ escape_char c = "&amp;") \/
  (c = "<"%char /\ escape_char c = "&lt;") \/
  (c = ">"%char /\ escape_char c = "&gt;") \/
  (c = quote_char /\ escape_char c = "&quot;") \/
  (c = apos_char /\ escape_char c = "&#39;") \/
  (c <> "&"%char /\ ~ List.In c markup_chars /\ escape_char c = String c EmptyString).
Proof.
  unfold escape_char, markup_chars.
  destruct (Ascii.eqb_spec c "&"); [tauto|].
  destruct (Ascii.eqb_spec c "<"); [tauto|].
  destruct (Ascii.eqb_spec c ">"); [tauto|].
  destruct (Ascii.eqb_spec c quote_char); [tauto|].
  destruct (Ascii.eqb_spec c apos_char); [tauto|].
  do 5 right. simpl. intuition congruence.
Qed.

Lemma substring_prefix (e rest : string) :
  String.substring 0 (String.length e) (e ++ rest) = e.
Proof.
  induction e as [|c e IH]; simpl.
  - now destruct rest.
  - now rewrite IH.
Qed.

Lemma safe_output_plain (a : ascii) (out : string) :
  a <> "&"%char -> ~ List.In a markup_chars ->
  safe_output out -> safe_output (String a out).
Proof.
  intros Hamp Hmark Hout [|i] c.
  - intros [= <-]. split; [assumption|]. intros ->. now contradiction Hamp.
  - apply Hout.
Qed.

Lemma safe_output_entity (e out : string) :
  List.In e entities ->
  String.substring 0 (String.length e) (String "&" out) = e ->
  safe_output out -> safe_output (String "&" out).
Proof.
  intros He Hsub Hout [|i] c.
  - intros [= <-]. split; [vm_compute; intuition discriminate|].
    intros _. now exists e.
  - apply Hout.
Qed.

Ltac plain_char :=
  apply safe_output_plain;
  [discriminate | vm_compute; intuition discriminate | ].

Lemma replace_all_safe (s : string) : safe_output (replace_all s).
Proof.
  induction s as [|a s IH]; simpl.
  - intros i c. destruct i; discriminate.
  - destruct (escape_char_cases a)
      as [[-> E]|[[-> E]|[[-> E]|[[-> E]|[[-> E]|(Hamp & Hmark & E)]]]]]; rewrite E.
    + apply (safe_output_entity "&amp;");
        [vm_compute; tauto | apply (substring_prefix "&amp;") | ].
      repeat plain_char. exact IH.
    + apply (safe_output_entity "&lt;");
        [vm_compute; tauto | apply (substring_prefix "&lt;") | ].
      repeat plain_char. exact IH.
    + apply (safe_output_entity "&gt;");
        [vm_compute; tauto | apply (substring_prefix "&gt;") | ].
      repeat plain_char. exact IH.
    + apply (safe_output_entity "&quot;");
        [vm_compute; tauto | apply (substring_prefix "&quot;") | ].
      repeat plain_char. exact IH.
    + apply (safe_output_entity "&#39;");
        [vm_compute; tauto | apply (substring_prefix "&#39;") | ].
      repeat plain_char. exact IH.
    + now apply safe_output_plain.
Qed.

(** C10.  For every input string the output of [escapeHtml] holds none of
    the characters less-than, greater-than, double quote and single
    quote, and every ampersand in it is the first character of one of the
    five entities; for null and undefined the output is the empty
    string. *)
Theorem escapeHtml_safe (s : string) :
  (forall i c, String.get i (escapeHtml (Str s)) = Some c ->
               ~ List.In c markup_chars) /\
  (forall i, String.get i (escapeHtml (Str s)) = Some "&"%char ->
             exists e, List.In e entities /\
                       String.substring i (String.length e) (escapeHtml (Str s)) = e) /\
  escapeHtml Null = "" /\
  escapeHtml Undefined = "".
Proof.
  unfold escapeHtml. simpl. repeat split.
  - intros i c Hget. now apply (replace_all_safe s i c).
  - intros i Hget. now apply (replace_all_safe s i "&"%char).
Qed.

End EscapeFacts.

(** ** Properties of the two API helpers *)

Section ApiFacts.

(** C5, as stated, fails for the admin variant: a network error and a
    non-2xx status are rejections the caller of [apiRequest] receives. *)
Lemma admin_apiRequest_rejects :
  fst (AdminPanel.apiRequest (J := AdminPanel.api_json) (Net.Settles 10 Net.NetworkError))
  = Net.Rejected Net.FetchFailed
  /\ fst (AdminPanel.apiRequest (J := AdminPanel.api_json)
            (Net.Settles 10 (Net.Response false 500 Net.BodyInvalid)))
     = Net.Rejected (Net.HttpError 500).
Proof. split; reflexivity. Qed.

Lemma getMockProduct_in_dataset {J : Type} (productId : string) :
  List.existsb (String.eqb productId) ProductManager.Object_prototype_keys = false ->
  exists p, ProductManager.getMockProduct (J := J) productId = ProductManager.Mock p
            /\ List.In p (List.map snd ProductManager.mockProducts).
Proof.
  intros Hproto. unfold ProductManager.getMockProduct. rewrite Hproto.
  unfold ProductManager.mockProducts. cbn [ProductManager.own_property].
  repeat (destruct (String.eqb _ productId);
          [eexists; split; [reflexivity | cbn [List.map snd List.In]; tauto]|]).
  eexists; split; [reflexivity | cbn [List.map snd List.In]; tauto].
Qed.

(** C5, amended.  The product-page variant never rejects: a network error,
    a non-2xx status, a body that is no JSON, and a [fetch] that has not
    settled within 1500 ms all resolve with the mock product, which is one
    of the four mock products unless the id names a property inherited
    from Object.prototype; a response in time resolves with its parsed
    JSON.  The admin variant applies no timeout and propagates every
    failure to its caller as a rejection, after one error notification;
    it is [loadProducts], the caller, that then falls back to the mock
    product list. *)
Theorem apiRequest_failure_handling {J : Type} (productId : string) :
  (forall (net : Net.network J) e,
      ProductManager.apiRequest productId net <> Net.Rejected e) /\
  (forall ms status (b : Net.body J),
      ProductManager.apiRequest productId (Net.Settles ms (Net.NetworkError (J := J)))
      = Net.Resolved (ProductManager.getMockProduct productId) /\
      ProductManager.apiRequest productId (Net.Settles ms (Net.Response false status b))
      = Net.Resolved (ProductManager.getMockProduct productId) /\
      ProductManager.apiRequest productId
        (Net.Settles ms (Net.Response true status (Net.BodyInvalid (J := J))))
      = Net.Resolved (ProductManager.getMockProduct productId)) /\
  (forall ms (r : Net.fetch_result J),
      ProductManager.TIMEOUT_MS <= ms ->
      ProductManager.apiRequest productId (Net.Settles ms r)
      = Net.Resolved (ProductManager.getMockProduct productId)) /\
  ProductManager.apiRequest productId (Net.Hangs (J := J))
  = Net.Resolved (ProductManager.getMockProduct productId) /\
  (forall ms status (j : J),
      ms < ProductManager.TIMEOUT_MS ->
      ProductManager.apiRequest productId
        (Net.Settles ms (Net.Response true status (Net.BodyJson j)))
      = Net.Resolved (ProductManager.Parsed j)) /\
  (List.existsb (String.eqb productId) ProductManager.Object_prototype_keys = false ->
   exists p, ProductManager.getMockProduct (J := J) productId = ProductManager.Mock p
             /\ List.In p (List.map snd ProductManager.mockProducts)) /\
  (forall ms status (b : Net.body J),
      AdminPanel.apiRequest (Net.Settles ms (Net.NetworkError (J := J)))
      = (Net.Rejected Net.FetchFailed, ["Error connecting to server"]) /\
      AdminPanel.apiRequest (Net.Settles ms (Net.Response false status b))
      = (Net.Rejected (Net.HttpError status), ["Error connecting to server"]) /\
      AdminPanel.apiRequest
        (Net.Settles ms (Net.Response true status (Net.BodyInvalid (J := J))))
      = (Net.Rejected Net.InvalidJson, ["Error connecting to server"])) /\
  (forall ms status (j : J),
      AdminPanel.apiRequest (Net.Settles ms (Net.Response true status (Net.BodyJson j)))
      = (Net.Resolved j, [])) /\
  AdminPanel.apiRequest (Net.Hangs (J := J)) = (Net.Pending, []) /\
  (forall this net e,
      fst (AdminPanel.apiRequest net) = Net.Rejected e ->
      AdminPanel.products (AdminPanel.loadProducts this net) = AdminPanel.mockProducts).
Proof.
  repeat apply conj.
  - intros net e. unfold ProductManager.apiRequest.
    destruct net as [ms r|]; [|discriminate].
    destruct (_ <=? ms); [discriminate|].
    destruct (Net.read_json r); discriminate.
  - intros ms status b. unfold ProductManager.apiRequest. simpl.
    now destruct (_ <=? ms).
  - intros ms r Hms. unfold ProductManager.apiRequest.
    destruct (Z.leb_spec ProductManager.TIMEOUT_MS ms); [reflexivity | lia].
  - reflexivity.
  - intros ms status j Hms. unfold ProductManager.apiRequest.
    destruct (Z.leb_spec ProductManager.TIMEOUT_MS ms); [lia | reflexivity].
  - apply getMockProduct_in_dataset.
  - intros ms status b. repeat split.
  - reflexivity.
  - reflexivity.
  - intros this net e Hrej. unfold AdminPanel.loadProducts. rewrite Hrej.
    unfold AdminPanel.loadMockProducts, AdminPanel.renderProducts.
    now destruct (AdminPanel.getPaginatedProducts _ _).
Qed.

End ApiFacts.

(** ** Properties of the image resizer *)

Section ResizeFacts.
Import LocalAdmin.
Local Open Scope Q_scope.

Lemma Math_round_bounds (x : Q) :
  x - (1 # 2) < inject_Z (Math_round x) /\ inject_Z (Math_round x) <= x + (1 # 2).
Proof.
  unfold Math_round.
  pose proof (Qfloor_le (x + (1 # 2))) as Hle.
  pose proof (Qlt_floor (x + (1 # 2))) as Hlt.
  rewrite inject_Z_plus in Hlt. change (inject_Z 1) with 1 in Hlt.
  revert Hle Hlt. generalize (inject_Z (Qfloor (x + (1 # 2)))). intros n Hle Hlt.
  split; lra.
Qed.

Lemma inject_Z_pos (n : Z) : (0 < n)%Z -> 0 < inject_Z n.
Proof. intros Hn. change 0 with (inject_Z 0). rewrite <- Zlt_Qlt. exact Hn. Qed.

Lemma float_u_bounds : 0 < float_u /\ float_u <= 1 # 1000000000000000.
Proof. split; reflexivity || discriminate. Qed.

Lemma exact_ratio_bounds (w h : Z) :
  (0 < w)%Z -> (0 < h)%Z ->
  0 < exact_ratio w h 1000 1000 <= 1 /\
  inject_Z w * exact_ratio w h 1000 1000 <= 1000 /\
  inject_Z h * exact_ratio w h 1000 1000 <= 1000.
Proof.
  intros Hw Hh. unfold exact_ratio.
  pose proof (inject_Z_pos w Hw) as Hqw. pose proof (inject_Z_pos h Hh) as Hqh.
  change (inject_Z 1000) with 1000.
  set (qw := inject_Z w) in *. set (qh := inject_Z h) in *.
  assert (EA : qw * (1000 / qw) == 1000) by (apply Qmult_div_r; lra).
  assert (EB : qh * (1000 / qh) == 1000) by (apply Qmult_div_r; lra).
  assert (HA : 0 < 1000 / qw) by (apply Qlt_shift_div_l; [assumption | reflexivity]).
  assert (HB : 0 < 1000 / qh) by (apply Qlt_shift_div_l; [assumption | reflexivity]).
  revert EA EB HA HB. generalize (1000 / qw) (1000 / qh). intros A B EA EB HA HB.
  pose proof (Q.le_min_l A B) as LA. pose proof (Q.le_min_r A B) as LB.
  assert (Hm : 0 < Qmin A B) by (destruct (Q.min_spec A B) as [[_ E]|[_ E]]; rewrite E; assumption).
  revert LA LB Hm. generalize (Qmin A B). intros m LA LB Hm.
  pose proof (Q.le_min_l 1 m) as L1. pose proof (Q.le_min_r 1 m) as Lm.
  assert (Hf : 0 < Qmin 1 m) by (destruct (Q.min_spec 1 m) as [[_ E]|[_ E]]; rewrite E; lra).
  revert L1 Lm Hf. generalize (Qmin 1 m). intros f L1 Lm Hf.
  repeat split; try lra; nra.
Qed.

Lemma Qmin_cases (x y : Q) :
  Qmin x y <= x /\ Qmin x y <= y /\ (Qmin x y == x \/ Qmin x y == y).
Proof.
  split; [apply Q.le_min_l|]. split; [apply Q.le_min_r|].
  destruct (Q.min_spec x y) as [[_ E]|[_ E]]; [now left | now right].
Qed.

Context `{FloatOps}.

(** The computed factor is the exact one up to one rounding. *)
Lemma scale_ratio_close (w h : Z) :
  (0 < w)%Z -> (0 < h)%Z ->
  exact_ratio w h 1000 1000 * (1 - float_u) <= scale_ratio w h 1000 1000
  /\ scale_ratio w h 1000 1000 <= exact_ratio w h 1000 1000 * (1 + float_u)
  /\ scale_ratio w h 1000 1000 <= 1.
Proof.
  intros Hw Hh. unfold scale_ratio, exact_ratio.
  pose proof (inject_Z_pos w Hw) as Hqw. pose proof (inject_Z_pos h Hh) as Hqh.
  change (inject_Z 1000) with 1000.
  assert (HA : 0 < 1000 / inject_Z w)
    by (apply Qlt_shift_div_l; [assumption | reflexivity]).
  assert (HB : 0 < 1000 / inject_Z h)
    by (apply Qlt_shift_div_l; [assumption | reflexivity]).
  pose proof (fdiv_error 1000 (inject_Z w) ltac:(reflexivity) Hqw) as Ea.
  pose proof (fdiv_error 1000 (inject_Z h) ltac:(reflexivity) Hqh) as Eb.
  apply Qabs_Qle_condition in Ea, Eb.
  revert HA HB Ea Eb.
  generalize (1000 / inject_Z w) (1000 / inject_Z h)
             (fdiv 1000 (inject_Z w)) (fdiv 1000 (inject_Z h)).
  intros A B a b HA HB Ea Eb. unfold float_u in *.
  pose proof (Qmin_cases A B) as (L1 & L2 & C1).
  set (mAB := Qmin A B) in *. clearbody mAB.
  pose proof (Qmin_cases 1 mAB) as (L3 & L4 & C2).
  set (f := Qmin 1 mAB) in *. clearbody f.
  pose proof (Qmin_cases a b) as (L5 & L6 & C3).
  set (mab := Qmin a b) in *. clearbody mab.
  pose proof (Qmin_cases 1 mab) as (L7 & L8 & C4).
  set (r := Qmin 1 mab) in *. clearbody r.
  destruct C1 as [C1|C1], C2 as [C2|C2], C3 as [C3|C3], C4 as [C4|C4];
    repeat split; lra.
Qed.

(** One dimension of the canvas: the rounded product of the source
    dimension and a factor close to the exact one. *)
Lemma scaled_dimension (d : Z) (r f : Q) :
  (0 < d)%Z -> 0 < f ->
  f * (1 - float_u) <= r -> r <= f * (1 + float_u) ->
  inject_Z d * f <= 1000 ->
  (0 <= Math_round (fmul (inject_Z d) r) <= 1000)%Z /\
  Qabs (inject_Z (Math_round (fmul (inject_Z d) r)) - inject_Z d * f)
  <= (1 # 2) + 3000 * float_u.
Proof.
  intros Hd Hf Hlo Hhi Hfit.
  pose proof (inject_Z_pos d Hd) as Hqd.
  assert (Hr : 0 <= r) by (unfold float_u in *; nra).
  pose proof (fmul_error (inject_Z d) r ltac:(lra) Hr) as Em.
  apply Qabs_Qle_condition in Em.
  pose proof (Math_round_bounds (fmul (inject_Z d) r)) as [Rlo Rhi].
  assert (Xlo : inject_Z d * f * (1 - float_u) <= inject_Z d * r)
    by (unfold float_u in *; nra).
  assert (Xhi : inject_Z d * r <= inject_Z d * f * (1 + float_u))
    by (unfold float_u in *; nra).
  assert (Hpos : 0 < inject_Z d * f) by nra.
  revert Em Rlo Rhi Xlo Xhi Hpos Hfit.
  generalize (inject_Z d * r) (inject_Z d * f) (fmul (inject_Z d) r).
  intros X P W Em Rlo Rhi Xlo Xhi Hpos Hfit.
  assert (Hlow : inject_Z (-1) < inject_Z (Math_round W))
    by (change (inject_Z (-1)) with (-1); unfold float_u in *; lra).
  assert (Hup : inject_Z (Math_round W) < inject_Z 1001)
    by (change (inject_Z 1001) with 1001; unfold float_u in *; lra).
  rewrite <- Zlt_Qlt in Hlow, Hup.
  split; [lia|].
  apply Qabs_Qle_condition. unfold float_u in *. split; lra.
Qed.

(** Both dimensions of the canvas, against the exact factor. *)
Lemma scaled_size_close (w h : Z) :
  (0 < w)%Z -> (0 < h)%Z ->
  ((0 <= fst (scaled_size w h 1000 1000) <= 1000)%Z /\
   Qabs (inject_Z (fst (scaled_size w h 1000 1000))
         - inject_Z w * exact_ratio w h 1000 1000) <= (1 # 2) + 3000 * float_u) /\
  ((0 <= snd (scaled_size w h 1000 1000) <= 1000)%Z /\
   Qabs (inject_Z (snd (scaled_size w h 1000 1000))
         - inject_Z h * exact_ratio w h 1000 1000) <= (1 # 2) + 3000 * float_u).
Proof.
  intros Hw Hh.
  destruct (exact_ratio_bounds w h Hw Hh) as ([Hf _] & Hfw & Hfh).
  destruct (scale_ratio_close w h Hw Hh) as (Hlo & Hhi & _).
  unfold scaled_size. simpl. split; now apply scaled_dimension.
Qed.

(** C6.  For a source image of positive width [w] and height [h], the
    resizer scales by [Math.min(1, 1000 / w, 1000 / h)]; the computed
    factor lies within one rounding of the exact value of that minimum,
    is positive and never exceeds 1, so nothing is scaled up; both output
    dimensions, the rounded products of the source dimensions and the
    factor, lie between 0 and 1000; and each differs from the source
    dimension times the one exact factor by at most half a pixel plus the
    accumulated floating point error, so the aspect ratio is kept up to
    rounding. *)
Theorem scaled_size_fits (w h : Z) :
  (0 < w)%Z -> (0 < h)%Z ->
  scale_ratio w h 1000 1000
  = Qmin 1 (Qmin (fdiv 1000 (inject_Z w)) (fdiv 1000 (inject_Z h))) /\
  Qabs (scale_ratio w h 1000 1000 - exact_ratio w h 1000 1000)
  <= float_u * exact_ratio w h 1000 1000 /\
  0 < scale_ratio w h 1000 1000 <= 1 /\
  scaled_size w h 1000 1000
  = (Math_round (fmul (inject_Z w) (scale_ratio w h 1000 1000)),
     Math_round (fmul (inject_Z h) (scale_ratio w h 1000 1000))) /\
  (0 <= fst (scaled_size w h 1000 1000) <= 1000)%Z /\
  (0 <= snd (scaled_size w h 1000 1000) <= 1000)%Z /\
  Qabs (inject_Z (fst (scaled_size w h 1000 1000))
        - inject_Z w * exact_ratio w h 1000 1000) <= (1 # 2) + 3000 * float_u /\
  Qabs (inject_Z (snd (scaled_size w h 1000 1000))
        - inject_Z h * exact_ratio w h 1000 1000) <= (1 # 2) + 3000 * float_u.
Proof.
  intros Hw Hh.
  destruct (exact_ratio_bounds w h Hw Hh) as ([Hf Hf1] & _ & _).
  destruct (scale_ratio_close w h Hw Hh) as (Hlo & Hhi & Hle).
  destruct (scaled_size_close w h Hw Hh) as ((Hw' & Hwa) & (Hh' & Hha)).
  split; [reflexivity|]. split; [|split; [|split; [reflexivity|]]].
  - apply Qabs_Qle_condition. unfold float_u in *. split; lra.
  - unfold float_u in *. split; lra.
  - repeat split; try assumption; lia.
Qed.

Lemma scaled_dimension_le (d : Z) (r f : Q) :
  (0 < d <= 4294967295)%Z -> 0 < f <= 1 ->
  f * (1 - float_u) <= r -> r <= f * (1 + float_u) ->
  (Math_round (fmul (inject_Z d) r) <= d)%Z.
Proof.
  intros [Hd Hmax] [Hf Hf1] Hlo Hhi.
  pose proof (inject_Z_pos d Hd) as Hqd.
  assert (Hqmax : inject_Z d <= 4294967295)
    by (change 4294967295 with (inject_Z 4294967295); now rewrite <- Zle_Qle).
  assert (Hr : 0 <= r) by (unfold float_u in *; nra).
  pose proof (fmul_error (inject_Z d) r ltac:(lra) Hr) as Em.
  apply Qabs_Qle_condition in Em.
  pose proof (Math_round_bounds (fmul (inject_Z d) r)) as [_ Rhi].
  assert (Xhi : inject_Z d * r <= inject_Z d * (1 + float_u))
    by (unfold float_u in *; nra).
  revert Em Rhi Xhi. generalize (inject_Z d * r) (fmul (inject_Z d) r).
  intros X W Em Rhi Xhi.
  assert (Hup : inject_Z (Math_round W) < inject_Z (d + 1)).
  { rewrite inject_Z_plus. change (inject_Z 1) with 1.
    unfold float_u in *. lra. }
  rewrite <- Zlt_Qlt in Hup. lia.
Qed.

(** X4: nothing is scaled up: for source dimensions up to 2^32 - 1, no output
    dimension exceeds the source dimension. *)
Lemma scaled_size_no_upscaling (w h : Z) :
  (0 < w <= 4294967295)%Z -> (0 < h <= 4294967295)%Z ->
  (fst (scaled_size w h 1000 1000) <= w)%Z /\
  (snd (scaled_size w h 1000 1000) <= h)%Z.
Proof.
  intros Hw Hh.
  destruct (exact_ratio_bounds w h ltac:(lia) ltac:(lia)) as (Hf & _ & _).
  destruct (scale_ratio_close w h ltac:(lia) ltac:(lia)) as (Hlo & Hhi & _).
  unfold scaled_size. simpl.
  split; [now apply (scaled_dimension_le w _ _ Hw Hf)
         | now apply (scaled_dimension_le h _ _ Hh Hf)].
Qed.

End ResizeFacts.

(** An 800 by 600 image in exact arithmetic keeps its size. *)
Lemma scaled_size_no_upscaling_witness :
  @LocalAdmin.scaled_size ExactOps 800 600 1000 1000 = (800, 600)
  /\ (fst (@LocalAdmin.scaled_size ExactOps 800 600 1000 1000) <= 800)%Z.
Proof.
  pose proof (@scaled_size_no_upscaling ExactOps 800 600
                ltac:(split; [reflexivity | discriminate])
                ltac:(split; [reflexivity | discriminate])) as [Hw _].
  split; [reflexivity | exact Hw].
Defined.

(** A 4000 by 3000 image in exact arithmetic becomes 1000 by 750. *)
Lemma scaled_size_fits_witness :
  @LocalAdmin.scaled_size ExactOps 4000 3000 1000 1000 = (1000, 750)
  /\ (0 <= fst (@LocalAdmin.scaled_size ExactOps 4000 3000 1000 1000) <= 1000)%Z.
Proof.
  pose proof (@scaled_size_fits ExactOps 4000 3000 ltac:(reflexivity) ltac:(reflexivity))
    as (_ & _ & _ & _ & Hfit & _).
  split; [reflexivity | exact Hfit].
Defined.

(** ** Properties of the image conversion *)

Section ConversionFacts.
Import LocalAdmin.
Context `{FloatOps} (B : browser).

Lemma convertFileForStorage_settled (f : File) :
  convertFileForStorage B (Some f) <> Refused.
Proof.
  unfold convertFileForStorage.
  destruct (file_size f >? THRESHOLD).
  - destruct (resizeImageFileToDataURL B (Some f) 1000 1000 (7 # 10) 0);
      try discriminate.
    simpl. now destruct (readAsDataURL B f 1).
  - simpl. destruct (readAsDataURL B f 0); simpl; [discriminate|].
    now destruct (readAsDataURL B f 1).
Qed.


End ConversionFacts.


(** A file of 50 KiB is stored as its own data URL, a file of 500 KiB as
    the JPEG encoding of the resized image. *)
Lemma convertFileForStorage_by_size :
  @LocalAdmin.convertFileForStorage ExactOps sample_browser
    (Some (LocalAdmin.mkFile "small.png" (50 * 1024)))
  = LocalAdmin.Fulfilled "data:small.png"
  /\ @LocalAdmin.convertFileForStorage ExactOps sample_browser
       (Some (LocalAdmin.mkFile "large.png" (500 * 1024)))
     = LocalAdmin.Fulfilled "data:image/jpeg;1000x750".
Proof. split; reflexivity. Qed.

(** ** Properties of the local store *)

Section StoreFacts.
Import LocalAdmin.
Context {S : Type} `{Storage S}.

(** The truncation keeps the front half of the stored array. *)
Lemma slice_front_half {A : Type} (existing : list A) :
  (2 < List.length existing)%nat ->
  JS.slice existing 0 (Z.max 1 (Z.of_nat (List.length existing) / 2))
  = firstn (List.length existing / 2) existing.
Proof.
  intros Hlen.
  assert (Hhalf : Z.of_nat (List.length existing) / 2
                  = Z.of_nat (List.length existing / 2))
    by (now rewrite Nat2Z.inj_div).
  assert (1 <= List.length existing / 2)%nat
    by (apply Nat.div_le_lower_bound; lia).
  rewrite Hhalf, Z.max_r by lia.
  change (Z.of_nat (List.length existing / 2))
    with (0 + Z.of_nat (List.length existing / 2)) at 1.
  rewrite slice_nonneg by lia.
  now rewrite Nat2Z.id.
Qed.

(** C1, amended.  A save that succeeds at once returns true.  When the
    write fails with the quota error, recovery is attempted only if the
    stored array that is inspected has more than two entries: it is
    replaced by its first half (the first floor(n/2) entries in stored
    order, which are the most recently added, since additions go to the
    front), and the write is retried once; the function returns true if
    the retry succeeds.  In every other case (an error other than the
    quota error, nothing to truncate, a failing truncation, a failing
    retry) the write is abandoned, one blocking alert is shown and the
    function returns false. *)
Theorem safeSaveLocal_quota_policy (s : S) (key : string) (arr : list record) :
  quota_policy s key arr (safeSaveLocal s key arr).
Proof.
  unfold safeSaveLocal.
  destruct (setItem s key (JSON_stringify arr)) as [s1|[|]] eqn:Hfirst.
  - apply saved_at_once; simpl; try assumption; try reflexivity.
  - destruct (safeParse (getItem s key)) as [existing|] eqn:Hparse.
    + destruct (Z.ltb_spec 2 (Z.of_nat (List.length existing))) as [Hlen|Hlen].
      * assert (Hlen' : (2 < List.length existing)%nat) by lia.
        rewrite (slice_front_half existing Hlen').
        destruct (setItem s key (JSON_stringify (firstn _ existing)))
          as [s2|err] eqn:Htrunc.
        -- destruct (setItem s2 key (JSON_stringify arr)) as [s3|err] eqn:Hretry.
           ++ now apply (saved_after_truncation s key arr key existing s2 s3).
           ++ now apply (abandoned_after_retry s key arr key existing s2 err).
        -- now apply (abandoned_truncation_failed s key arr key existing err).
      * apply (abandoned_nothing_to_truncate s key arr key); try reflexivity;
          try assumption.
        intros existing' E. rewrite Hparse in E. injection E as <-. lia.
    + apply (abandoned_nothing_to_truncate s key arr key); try reflexivity;
        try assumption.
      intros existing' E. rewrite Hparse in E. discriminate.
  - now apply abandoned_other_error.
Qed.

(** *** Identifiers of the stored products *)

Lemma loadLocal_saveLocal (s s' : S) (key : string) (arr : list record) :
  saveLocal s key arr = inl s' -> loadLocal s' key = JArray arr.
Proof.
  unfold saveLocal, loadLocal. intros Hset.
  rewrite (getItem_setItem _ _ _ _ key Hset), String.eqb_refl. reflexivity.
Qed.

Lemma stored_ids_addProduct (s : S) (now : Z) (f : product_form) :
  stored_ids (addProduct s now f) = stored_ids s \/
  stored_ids (addProduct s now f) = now :: stored_ids s.
Proof.
  unfold addProduct. destruct (negb (JS.truthy (form_title f))); [now left|].
  destruct (loadLocal s PRODUCTS_KEY) as [arr|] eqn:Hload; [|now left].
  destruct (saveLocal s PRODUCTS_KEY _) as [s'|err] eqn:Hsave; [|now left].
  right. unfold stored_ids. now rewrite (loadLocal_saveLocal _ _ _ _ Hsave), Hload.
Qed.

Lemma record_ids_filter (pid : Z) (arr : list record) :
  List.map record_id (List.filter (fun x => negb (record_id x =? pid)) arr)
  = List.filter (fun i => negb (i =? pid)) (List.map record_id arr).
Proof.
  induction arr as [|x arr IH]; [reflexivity|]. simpl.
  destruct (negb (record_id x =? pid)); simpl; now rewrite IH.
Qed.

Lemma stored_ids_deleteProduct (s : S) (pid : Z) :
  stored_ids (deleteProduct s pid) = stored_ids s \/
  stored_ids (deleteProduct s pid)
  = List.filter (fun i => negb (i =? pid)) (stored_ids s).
Proof.
  unfold deleteProduct.
  destruct (loadLocal s PRODUCTS_KEY) as [arr|] eqn:Hload; [|now left].
  destruct (saveLocal s PRODUCTS_KEY _) as [s'|err] eqn:Hsave; [|now left].
  right. unfold stored_ids.
  now rewrite (loadLocal_saveLocal _ _ _ _ Hsave), Hload, record_ids_filter.
Qed.

(** C4, amended.  The product created by an addition gets the clock
    reading of that addition as its identifier.  So, starting from a
    stored collection with pairwise distinct identifiers, after any
    sequence of additions and deletions whose additions read pairwise
    distinct clock values, none of them an identifier already stored, the
    stored collection has pairwise distinct identifiers. *)
Theorem stored_ids_distinct (s : S) (ops : list op) :
  List.NoDup (stored_ids s) ->
  List.NoDup (add_times ops) ->
  (forall t, List.In t (add_times ops) -> ~ List.In t (stored_ids s)) ->
  List.NoDup (stored_ids (run_ops s ops)) /\
  (forall now f, stored_ids (addProduct s now f) = stored_ids s \/
                 stored_ids (addProduct s now f) = now :: stored_ids s).
Proof.
  intros Hids Htimes Hfresh. split; [|apply stored_ids_addProduct].
  revert s Hids Htimes Hfresh. unfold run_ops.
  induction ops as [|o ops IH]; intros s Hids Htimes Hfresh; [exact Hids|].
  simpl. destruct o as [now f|pid]; simpl in *.
  - apply List.NoDup_cons_iff in Htimes as [Hnow Htimes].
    destruct (stored_ids_addProduct s now f) as [E|E].
    + apply IH; rewrite ?E; auto.
    + apply IH; rewrite ?E; auto.
      * constructor; auto.
      * intros t Ht [<-|Hin]; [contradiction|]. now apply (Hfresh t); [right|].
  - destruct (stored_ids_deleteProduct s pid) as [E|E].
    + apply IH; rewrite ?E; auto.
    + apply IH; rewrite ?E; auto.
      * now apply List.NoDup_filter.
      * intros t Ht Hin. apply List.filter_In in Hin as [Hin _].
        now apply (Hfresh t).
Qed.

End StoreFacts.

Section QuotaStoreFacts.
Import LocalAdmin.

(** C1, as stated, fails: with two products and two categories stored and
    the quota used up, saving three products fails with the quota error,
    yet the categories, the other collection, keep both entries, no
    second write is attempted, and the function returns false. *)
Lemma safeSaveLocal_keeps_other_collection :
  setItem QuotaStorage.full PRODUCTS_KEY (JSON_stringify QuotaStorage.new_products)
  = inr QuotaExceededError
  /\ getItem (fst (fst (safeSaveLocal QuotaStorage.full PRODUCTS_KEY
                                       QuotaStorage.new_products))) CATEGORIES_KEY
     = Some (JSON_stringify [QuotaStorage.chains; QuotaStorage.rings])
  /\ written (snd (fst (safeSaveLocal QuotaStorage.full PRODUCTS_KEY
                                      QuotaStorage.new_products)))
     = [(PRODUCTS_KEY, JSON_stringify QuotaStorage.new_products)]
  /\ snd (safeSaveLocal QuotaStorage.full PRODUCTS_KEY QuotaStorage.new_products) = false.
Proof. repeat split; vm_compute; reflexivity. Qed.

(** C4, as stated, fails: two additions that read the same millisecond
    from the clock store two products with the same identifier. *)
Lemma same_millisecond_same_id :
  stored_ids (run_ops (QuotaStorage.empty 4000)
                [Add 1700000000000 (QuotaStorage.sample_form "Ring");
                 Add 1700000000000 (QuotaStorage.sample_form "Chain")])
  = [1700000000000; 1700000000000]%Z
  /\ ~ List.NoDup (stored_ids (run_ops (QuotaStorage.empty 4000)
                [Add 1700000000000 (QuotaStorage.sample_form "Ring");
                 Add 1700000000000 (QuotaStorage.sample_form "Chain")])).
Proof.
  split; [vm_compute; reflexivity|].
  intros Hnodup. vm_compute in Hnodup.
  apply List.NoDup_cons_iff in Hnodup as [Hnotin _].
  apply Hnotin. now left.
Qed.

(** Two additions a millisecond apart and a deletion, on an empty store. *)
Lemma stored_ids_distinct_witness :
  List.NoDup (stored_ids (run_ops (QuotaStorage.empty 4000)
                [Add 1700000000000 (QuotaStorage.sample_form "Ring");
                 Add 1700000000001 (QuotaStorage.sample_form "Chain");
                 Delete 1700000000000])).
Proof.
  apply (stored_ids_distinct (QuotaStorage.empty 4000)
           [Add 1700000000000 (QuotaStorage.sample_form "Ring");
            Add 1700000000001 (QuotaStorage.sample_form "Chain");
            Delete 1700000000000]).
  - vm_compute. constructor.
  - simpl. repeat constructor; simpl; intuition discriminate.
  - intros t _. vm_compute. tauto.
Defined.

End QuotaStoreFacts.

(** ** Further properties *)

Section AdminPanelExamples.
Import AdminPanel.

(** The four mock products with a page size of 10: one page, all four
    rows shown, no pagination control rendered. *)
Lemma mock_products_single_page :
  totalPages (loadMockProducts (constructor "" "")) = 1 /\
  tableBody (loadMockProducts (constructor "" "")) = mockProducts /\
  pagination (loadMockProducts (constructor "" "")) = [].
Proof. repeat split; reflexivity. Qed.

Lemma filter_filter {A : Type} (f : A -> bool) (l : list A) :
  List.filter f (List.filter f l) = List.filter f l.
Proof.
  induction l as [|x l IH]; [reflexivity|]. simpl.
  destruct (f x) eqn:E; simpl; rewrite ?E, IH; reflexivity.
Qed.

(** X1: filtering is idempotent: filtering the filter result with the same
    search term and category gives the same list. *)
Lemma getFilteredProducts_idempotent (this : t) :
  getFilteredProducts (set_products this (getFilteredProducts this))
  = getFilteredProducts this.
Proof. unfold getFilteredProducts. simpl. apply filter_filter. Qed.

End AdminPanelExamples.

Section QuotaRecovery.
Import LocalAdmin.

(** A value refused under a key is refused again after any other value
    has been written under that key: the quota counts what the store
    would hold after the write. *)
Lemma retry_after_truncation (s s2 : QuotaStorage.store) (key : string)
    (v w : text) (err : DOMException) :
  setItem s key v = inr err -> setItem s key w = inl s2 ->
  setItem s2 key v = inr QuotaExceededError.
Proof.
  simpl. unfold QuotaStorage.set. intros Hfirst Htrunc.
  destruct (_ <=? _)%nat in Htrunc; [|discriminate].
  injection Htrunc as <-. simpl. rewrite insert_insert_eq.
  now destruct (_ <=? _)%nat.
Qed.

(** X2: in a store whose quota counts the characters stored, the recovery
    never helps: the array it truncates is stored under the key that the
    retry overwrites, so the retry needs the space the first write
    needed, and [safeSaveLocal] returns true exactly when the first write
    succeeds. *)
Lemma safeSaveLocal_quota_never_recovers
    (s : QuotaStorage.store) (key : string) (arr : list record) :
  snd (safeSaveLocal s key arr)
  = match setItem s key (JSON_stringify arr) with
    | inl _ => true
    | inr _ => false
    end.
Proof.
  unfold safeSaveLocal. simpl.
  destruct (QuotaStorage.set s key (JSON_stringify arr)) as [s1|[|]] eqn:Hfirst;
    try reflexivity.
  destruct (safeParse (QuotaStorage.get s key)) as [existing|]; [|reflexivity].
  destruct (2 <? Z.of_nat (List.length existing)); [|reflexivity].
  destruct (QuotaStorage.set s key (JSON_stringify (JS.slice _ _ _)))
    as [s2|err] eqn:Htrunc; [|reflexivity].
  unfold QuotaStorage.set in Htrunc, Hfirst |- *.
  destruct (_ <=? _)%nat in Htrunc; [|discriminate].
  injection Htrunc as <-. simpl. rewrite insert_insert_eq.
  now destruct (_ <=? _)%nat.
Qed.

(** Four products and four categories stored, the quota used up: saving
    five products fails, the stored products are cut to the two most
    recent ones, and the four categories stay as they were. *)
Lemma safeSaveLocal_truncates_saved_key :
  snd (safeSaveLocal QuotaStorage.crowded PRODUCTS_KEY
         [QuotaStorage.anklet; QuotaStorage.pendant; QuotaStorage.bangle;
          QuotaStorage.chain; QuotaStorage.ring]) = false
  /\ getItem (fst (fst (safeSaveLocal QuotaStorage.crowded PRODUCTS_KEY
         [QuotaStorage.anklet; QuotaStorage.pendant; QuotaStorage.bangle;
          QuotaStorage.chain; QuotaStorage.ring]))) PRODUCTS_KEY
     = Some (JSON_stringify [QuotaStorage.pendant; QuotaStorage.bangle])
  /\ getItem (fst (fst (safeSaveLocal QuotaStorage.crowded PRODUCTS_KEY
         [QuotaStorage.anklet; QuotaStorage.pendant; QuotaStorage.bangle;
          QuotaStorage.chain; QuotaStorage.ring]))) CATEGORIES_KEY
     = Some (JSON_stringify [QuotaStorage.pendants; QuotaStorage.bangles;
                             QuotaStorage.chains; QuotaStorage.rings]).
Proof. repeat split; vm_compute; reflexivity. Qed.

(** Malformed stored text loads as the empty collection. *)
Lemma loadLocal_fails_soft (q : nat) (raw : string) :
  loadLocal (QuotaStorage.mkStore (<[PRODUCTS_KEY := TRaw raw]> ∅) q) PRODUCTS_KEY
  = JArray [].
Proof. unfold loadLocal. simpl. unfold QuotaStorage.get. simpl.
  now rewrite lookup_insert_eq.
Qed.

End QuotaRecovery.

(** ** The pagination bar *)

Section PaginationBar.
Import AdminPanel.

Lemma range1_sorted (n : Z) : Sorted.StronglySorted Z.lt (JS.range1 n).
Proof.
  unfold JS.range1. generalize 1%nat. induction (Z.to_nat n) as [|k IH]; intros a; simpl.
  - constructor.
  - constructor; [apply IH|].
    apply List.Forall_forall. intros x Hx.
    apply List.in_map_iff in Hx as [y [<- Hy]]. apply List.in_seq in Hy. lia.
Qed.

Lemma sorted_filter (f : Z -> bool) (l : list Z) :
  Sorted.StronglySorted Z.lt l -> Sorted.StronglySorted Z.lt (List.filter f l).
Proof.
  induction 1 as [|a l Hl IH Ha]; simpl; [constructor|].
  destruct (f a); [|exact IH]. constructor; [exact IH|].
  apply List.Forall_forall. intros x Hx. apply List.filter_In in Hx as [Hx _].
  exact (proj1 (List.Forall_forall _ _) Ha x Hx).
Qed.

Lemma sorted_NoDup (l : list Z) : Sorted.StronglySorted Z.lt l -> List.NoDup l.
Proof.
  induction 1 as [|a l Hl IH Ha]; constructor; [|exact IH].
  intros Hin. pose proof (proj1 (List.Forall_forall _ _) Ha a Hin). lia.
Qed.

Lemma range1_In (n i : Z) : List.In i (JS.range1 n) <-> 1 <= i <= n.
Proof.
  split; [apply range1_bounds|]. intros Hi. unfold JS.range1.
  apply List.in_map_iff. exists (Z.to_nat i). split; [lia|].
  apply List.in_seq. lia.
Qed.

Lemma flat_map_filter {A : Type} (f : A -> bool) (l : list A) :
  List.flat_map (fun x => if f x then [x] else []) l = List.filter f l.
Proof.
  induction l as [|x l IH]; [reflexivity|]. simpl. rewrite IH. now destruct (f x).
Qed.

Lemma flat_map_flat_map {A B C : Type} (f : A -> list B) (g : B -> list C) (l : list A) :
  List.flat_map g (List.flat_map f l) = List.flat_map (fun x => List.flat_map g (f x)) l.
Proof.
  induction l as [|x l IH]; [reflexivity|]. simpl.
  now rewrite List.flat_map_app, IH.
Qed.

Lemma page_numbers_pageControls (this : t) (total i : Z) :
  page_numbers (pageControls this total i)
  = if has_button (currentPage this) total i then [i] else [].
Proof.
  unfold page_numbers, pageControls, has_button.
  destruct (_ || _ || _); [reflexivity|]. now destruct (_ || _).
Qed.

(** The bar of more than one page: Previous, the loop, Next. *)
Lemma renderPagination_bar (this : t) (totalItems : Z) :
  1 < JS.ceil_div totalItems (itemsPerPage this) ->
  pagination (renderPagination this totalItems)
  = Previous (currentPage this =? 1) (currentPage this - 1)
    :: List.flat_map (pageControls this (JS.ceil_div totalItems (itemsPerPage this)))
                     (JS.range1 (JS.ceil_div totalItems (itemsPerPage this)))
    ++ [Next (currentPage this =? JS.ceil_div totalItems (itemsPerPage this))
             (currentPage this + 1)].
Proof.
  intros Hmany. unfold renderPagination. simpl.
  destruct (Z.leb_spec (JS.ceil_div totalItems (itemsPerPage this)) 1); [lia|reflexivity].
Qed.

Lemma page_numbers_bar (this : t) (totalItems : Z) :
  1 < JS.ceil_div totalItems (itemsPerPage this) ->
  page_numbers (pagination (renderPagination this totalItems))
  = List.filter (has_button (currentPage this) (JS.ceil_div totalItems (itemsPerPage this)))
                (JS.range1 (JS.ceil_div totalItems (itemsPerPage this))).
Proof.
  intros Hmany. rewrite renderPagination_bar by assumption.
  unfold page_numbers at 1. simpl. rewrite List.flat_map_app. simpl.
  rewrite app_nil_r, flat_map_flat_map, <- flat_map_filter.
  apply List.flat_map_ext. intros i. apply page_numbers_pageControls.
Qed.

(** X5: the window of page buttons.  When there is more than one page, the
    bar shows a button for the first page, for the last page and for the
    pages at most two away from the current page, and for no other page;
    the buttons stand in increasing order of page, and there are at most
    seven of them. *)
Theorem pagination_window (this : t) (totalItems : Z) :
  1 < JS.ceil_div totalItems (itemsPerPage this) ->
  (forall i, List.In i (page_numbers (pagination (renderPagination this totalItems))) <->
             1 <= i <= JS.ceil_div totalItems (itemsPerPage this) /\
             (i = 1 \/ i = JS.ceil_div totalItems (itemsPerPage this)
              \/ currentPage this - 2 <= i <= currentPage this + 2)) /\
  Sorted.StronglySorted Z.lt (page_numbers (pagination (renderPagination this totalItems))) /\
  (List.length (page_numbers (pagination (renderPagination this totalItems))) <= 7)%nat.
Proof.
  intros Hmany. rewrite page_numbers_bar by assumption.
  set (total := JS.ceil_div totalItems (itemsPerPage this)) in *.
  set (cp := currentPage this).
  assert (Hin : forall i, List.In i (List.filter (has_button cp total) (JS.range1 total)) <->
                          1 <= i <= total /\
                          (i = 1 \/ i = total \/ cp - 2 <= i <= cp + 2)).
  { intros i. rewrite List.filter_In, range1_In. unfold has_button.
    rewrite !orb_true_iff, andb_true_iff, !Z.eqb_eq, !Z.leb_le. tauto. }
  split; [exact Hin|]. split.
  - apply sorted_filter, range1_sorted.
  - apply (List.NoDup_incl_length
             (l' := [1; total; cp - 2; cp - 1; cp; cp + 1; cp + 2])).
    + apply sorted_NoDup, sorted_filter, range1_sorted.
    + intros i Hi. apply Hin in Hi as [_ Hi]. simpl.
      destruct Hi as [->|[->|Hi]]; [tauto | tauto |].
      assert (i = cp - 2 \/ i = cp - 1 \/ i = cp \/ i = cp + 1 \/ i = cp + 2) by lia.
      intuition.
Qed.

Lemma active_pages_pageControls (this : t) (total i : Z) :
  active_pages (pageControls this total i)
  = if has_button (currentPage this) total i && (i =? currentPage this) then [i] else [].
Proof.
  unfold active_pages, pageControls, has_button.
  destruct (_ || _ || _); simpl.
  - now destruct (i =? currentPage this).
  - now destruct (_ || _).
Qed.

Lemma ellipses_pageControls (this : t) (total : Z) (l : list Z) :
  ellipses (List.flat_map (pageControls this total) l)
  = List.length (List.filter (has_ellipsis (currentPage this) total) l).
Proof.
  unfold ellipses. induction l as [|i l IH]; [reflexivity|]. simpl.
  rewrite List.filter_app, List.length_app, IH.
  unfold pageControls, has_ellipsis, has_button.
  destruct (_ || _ || _); simpl; [reflexivity|]. now destruct (_ || _).
Qed.

Lemma ellipses_bar (this : t) (totalItems : Z) :
  1 < JS.ceil_div totalItems (itemsPerPage this) ->
  ellipses (pagination (renderPagination this totalItems))
  = List.length
      (List.filter (has_ellipsis (currentPage this)
                      (JS.ceil_div totalItems (itemsPerPage this)))
                   (JS.range1 (JS.ceil_div totalItems (itemsPerPage this)))).
Proof.
  intros Hmany. rewrite renderPagination_bar by assumption.
  rewrite <- ellipses_pageControls. unfold ellipses. simpl.
  now rewrite List.filter_app, !List.length_app.
Qed.

Lemma pages_empty (lo hi : Z) : hi < lo -> pages lo hi = [].
Proof.
  intros Hlt. unfold pages. now replace (Z.to_nat (hi - lo + 1)) with 0%nat by lia.
Qed.

Lemma pages_one (k : Z) : pages k k = [k].
Proof.
  unfold pages. replace (k - k + 1) with 1 by lia. simpl. f_equal. lia.
Qed.

Lemma pages_app (lo k hi : Z) :
  lo <= k -> k <= hi + 1 -> pages lo hi = (pages lo (k - 1) ++ pages k hi)%list.
Proof.
  intros Hlo Hhi. unfold pages.
  replace (Z.to_nat (hi - lo + 1))
    with (Z.to_nat (k - 1 - lo + 1) + Z.to_nat (hi - k + 1))%nat by lia.
  rewrite List.seq_app, List.map_app. f_equal.
  assert (Hshift : forall b c,
             List.map (fun x => lo + Z.of_nat x)
                      (List.seq (Z.to_nat (k - 1 - lo + 1) + c) b)
             = List.map (fun j => k + Z.of_nat j) (List.seq c b)).
  { induction b as [|b IH]; intros c; [reflexivity|]. simpl. f_equal; [lia|].
    rewrite <- IH. f_equal. f_equal. lia. }
  rewrite <- (Hshift _ 0%nat). f_equal. f_equal. lia.
Qed.

Lemma range1_pages (n : Z) : JS.range1 n = pages 1 n.
Proof.
  unfold JS.range1, pages. replace (n - 1 + 1) with n by lia.
  rewrite <- List.seq_shift, List.map_map. apply List.map_ext. intros k. lia.
Qed.

Lemma pages_In (lo hi i : Z) : List.In i (pages lo hi) -> lo <= i <= hi.
Proof.
  unfold pages. intros Hin. apply List.in_map_iff in Hin as [k [<- Hk]].
  apply List.in_seq in Hk. lia.
Qed.

Lemma flat_map_none {A B : Type} (f : A -> list B) (l : list A) :
  (forall x, List.In x l -> f x = []) -> List.flat_map f l = [].
Proof.
  induction l as [|x l IH]; intros Hf; [reflexivity|]. simpl.
  rewrite (Hf x) by now left. apply IH. intros y Hy. apply Hf. now right.
Qed.

Lemma flat_map_each {A B : Type} (f : A -> list B) (g : A -> B) (l : list A) :
  (forall x, List.In x l -> f x = [g x]) -> List.flat_map f l = List.map g l.
Proof.
  induction l as [|x l IH]; intros Hf; [reflexivity|]. simpl.
  rewrite (Hf x) by now left. simpl. f_equal. apply IH. intros y Hy. apply Hf. now right.
Qed.

(** Evaluates one pass of the page-number loop under arithmetic facts. *)
Ltac loop_body :=
  unfold pageControls;
  repeat match goal with
         | |- context [Z.eqb ?a ?b] => destruct (Z.eqb_spec a b)
         | |- context [Z.leb ?a ?b] => destruct (Z.leb_spec a b)
         end;
  simpl; try reflexivity; try lia.

(** What the page-number loop produces, from left to right. *)
Lemma loop_layout (this : t) (total : Z) :
  1 < total -> 1 <= currentPage this <= total ->
  List.flat_map (pageControls this total) (JS.range1 total)
  = ((if 1 <? currentPage this - 2 then [PageButton false 1] else [])
     ++ (if 2 <=? currentPage this - 3 then [Ellipsis] else [])
     ++ List.map (fun i => PageButton (i =? currentPage this) i)
                 (pages (Z.max 1 (currentPage this - 2))
                        (Z.min total (currentPage this + 2)))
     ++ (if currentPage this + 3 <=? total - 1 then [Ellipsis] else [])
     ++ (if currentPage this + 2 <? total then [PageButton false total] else []))%list.
Proof.
  intros Hmany Hcp. rewrite range1_pages.
  rewrite (pages_app 1 (Z.max 1 (currentPage this - 2)) total) by lia.
  rewrite (pages_app (Z.max 1 (currentPage this - 2))
                     (Z.min total (currentPage this + 2) + 1) total) by lia.
  replace (Z.min total (currentPage this + 2) + 1 - 1)
    with (Z.min total (currentPage this + 2)) by lia.
  rewrite !List.flat_map_app.
  assert (Hleft : List.flat_map (pageControls this total)
                    (pages 1 (Z.max 1 (currentPage this - 2) - 1))
                  = ((if 1 <? currentPage this - 2 then [PageButton false 1] else [])
                     ++ (if 2 <=? currentPage this - 3 then [Ellipsis] else []))%list).
  { destruct (Z.ltb_spec 1 (currentPage this - 2)) as [Hfar|Hnear].
    - rewrite Z.max_r by lia.
      rewrite (pages_app 1 2 _) by lia. change (2 - 1) with 1. rewrite pages_one.
      destruct (Z.leb_spec 2 (currentPage this - 3)) as [Hgap|Hnone].
      + rewrite (pages_app 2 (currentPage this - 3) _) by lia.
        replace (currentPage this - 2 - 1) with (currentPage this - 3) by lia.
        rewrite pages_one, !List.flat_map_app.
        rewrite (flat_map_none _ (pages 2 _)).
        * cbn [List.flat_map]. rewrite ?app_nil_r, ?app_nil_l. f_equal; loop_body.
        * intros i Hi. apply pages_In in Hi. loop_body.
      + rewrite (pages_empty 2) by lia. cbn [List.flat_map app].
        rewrite ?app_nil_r, ?app_nil_l. loop_body.
    - rewrite Z.max_l by lia. rewrite pages_empty by lia.
      destruct (Z.leb_spec 2 (currentPage this - 3)); [lia|reflexivity]. }
  assert (Hmid : List.flat_map (pageControls this total)
                   (pages (Z.max 1 (currentPage this - 2))
                          (Z.min total (currentPage this + 2)))
                 = List.map (fun i => PageButton (i =? currentPage this) i)
                            (pages (Z.max 1 (currentPage this - 2))
                                   (Z.min total (currentPage this + 2)))).
  { apply flat_map_each. intros i Hi. apply pages_In in Hi. loop_body. }
  assert (Hright : List.flat_map (pageControls this total)
                     (pages (Z.min total (currentPage this + 2) + 1) total)
                   = ((if currentPage this + 3 <=? total - 1 then [Ellipsis] else [])
                      ++ (if currentPage this + 2 <? total
                          then [PageButton false total] else []))%list).
  { destruct (Z.ltb_spec (currentPage this + 2) total) as [Hfar|Hnear].
    - rewrite Z.min_r by lia.
      rewrite (pages_app _ total total) by lia. rewrite pages_one.
      destruct (Z.leb_spec (currentPage this + 3) (total - 1)) as [Hgap|Hnone].
      + rewrite (pages_app _ (currentPage this + 4) (total - 1)) by lia.
        replace (currentPage this + 4 - 1) with (currentPage this + 2 + 1) by lia.
        rewrite pages_one, !List.flat_map_app.
        rewrite (flat_map_none _ (pages (currentPage this + 4) _)).
        * cbn [List.flat_map]. rewrite ?app_nil_r, ?app_nil_l. f_equal; loop_body.
        * intros i Hi. apply pages_In in Hi. loop_body.
      + rewrite (pages_empty _ (total - 1)) by lia. cbn [List.flat_map app].
        rewrite ?app_nil_r, ?app_nil_l. loop_body.
    - rewrite Z.min_l by lia. rewrite pages_empty by lia.
      destruct (Z.leb_spec (currentPage this + 3) (total - 1)); [lia|reflexivity]. }
  rewrite Hleft, Hmid, Hright. now rewrite <- !app_assoc.
Qed.

(** X6: the bar around a current page within range.  When there is more
    than one page and the current page is one of them, the bar is, from
    left to right: Previous; the button of page 1, if the window does not
    reach it; an ellipsis, if the pages 2 to current - 3 exist; the
    buttons of the pages at most two away from the current page, of
    which the one of the current page, and no other, is marked active;
    an ellipsis, if the pages current + 3 to last - 1 exist; the button
    of the last page, if the window does not reach it; Next.  So the bar
    holds one ellipsis for each side of the window on which pages have
    no button, standing on that side, and a page without a button always
    lies on a side that has its ellipsis. *)
Theorem pagination_current_page (this : t) (totalItems : Z) :
  1 < JS.ceil_div totalItems (itemsPerPage this) ->
  1 <= currentPage this <= JS.ceil_div totalItems (itemsPerPage this) ->
  pagination (renderPagination this totalItems)
  = (Previous (currentPage this =? 1) (currentPage this - 1)
     :: (if 1 <? currentPage this - 2 then [PageButton false 1] else [])
     ++ (if 2 <=? currentPage this - 3 then [Ellipsis] else [])
     ++ List.map (fun i => PageButton (i =? currentPage this) i)
                 (pages (Z.max 1 (currentPage this - 2))
                        (Z.min (JS.ceil_div totalItems (itemsPerPage this))
                               (currentPage this + 2)))
     ++ (if currentPage this + 3 <=? JS.ceil_div totalItems (itemsPerPage this) - 1
         then [Ellipsis] else [])
     ++ (if currentPage this + 2 <? JS.ceil_div totalItems (itemsPerPage this)
         then [PageButton false (JS.ceil_div totalItems (itemsPerPage this))] else [])
     ++ [Next (currentPage this =? JS.ceil_div totalItems (itemsPerPage this))
              (currentPage this + 1)])%list /\
  active_pages (pagination (renderPagination this totalItems)) = [currentPage this] /\
  ellipses (pagination (renderPagination this totalItems))
  = ((if (2 <=? currentPage this - 3)%Z then 1 else 0)
     + (if (currentPage this + 3 <=? JS.ceil_div totalItems (itemsPerPage this) - 1)%Z
        then 1 else 0))%nat /\
  (forall i, 1 <= i <= JS.ceil_div totalItems (itemsPerPage this) ->
             ~ List.In i (page_numbers (pagination (renderPagination this totalItems))) ->
             (i < currentPage this /\ 2 <= currentPage this - 3) \/
             (currentPage this < i /\
              currentPage this + 3 <= JS.ceil_div totalItems (itemsPerPage this) - 1)).
Proof.
  intros Hmany Hcp.
  split.
  { rewrite renderPagination_bar by assumption.
    rewrite loop_layout by assumption. now rewrite <- !app_assoc. }
  rewrite ellipses_bar, page_numbers_bar by assumption.
  rewrite renderPagination_bar by assumption.
  set (total := JS.ceil_div totalItems (itemsPerPage this)) in *.
  set (cp := currentPage this) in *.
  split; [|split].
  - unfold active_pages. simpl. rewrite List.flat_map_app. simpl.
    rewrite app_nil_r, flat_map_flat_map.
    rewrite (List.flat_map_ext _ _ (active_pages_pageControls this total)).
    fold cp. rewrite flat_map_filter.
    apply Permutation_length_1_inv.
    apply Permutation.NoDup_Permutation.
    + repeat constructor. intros [].
    + apply List.NoDup_filter, sorted_NoDup, range1_sorted.
    + intros i. rewrite List.filter_In, range1_In. unfold has_button. simpl.
      rewrite andb_true_iff, !orb_true_iff, andb_true_iff, !Z.eqb_eq, !Z.leb_le.
      split; [intros [<-|[]]; lia | intros (_ & _ & ->); now left].
  - transitivity (List.length ((if 2 <=? cp - 3 then [cp - 3] else [])
                               ++ (if cp + 3 <=? total - 1 then [cp + 3] else [])));
      [|now destruct (2 <=? cp - 3), (cp + 3 <=? total - 1)].
    apply Permutation_length.
    apply Permutation.NoDup_Permutation.
    + apply List.NoDup_filter, sorted_NoDup, range1_sorted.
    + destruct (Z.leb_spec 2 (cp - 3)), (Z.leb_spec (cp + 3) (total - 1)); simpl;
        repeat constructor; simpl; intuition lia.
    + intros i. rewrite List.filter_In, range1_In. unfold has_ellipsis, has_button.
      rewrite andb_true_iff, negb_true_iff, !orb_false_iff, andb_false_iff,
        orb_true_iff, !Z.eqb_eq, !Z.eqb_neq, !Z.leb_gt.
      destruct (Z.leb_spec 2 (cp - 3)), (Z.leb_spec (cp + 3) (total - 1)); simpl;
        intuition lia.
  - intros i Hi Hhidden. rewrite List.filter_In, range1_In in Hhidden.
    unfold has_button in Hhidden.
    rewrite !orb_true_iff, andb_true_iff, !Z.eqb_eq, !Z.leb_le in Hhidden. lia.
Qed.

(** One hundred and fifteen items on page 6 of twelve: an ellipsis on
    either side of the window. *)
Lemma pagination_current_page_witness :
  pagination (renderPagination (set_currentPage (constructor "" "") 6) 115)
  = [Previous false 5; PageButton false 1; Ellipsis;
     PageButton false 4; PageButton false 5; PageButton true 6;
     PageButton false 7; PageButton false 8;
     Ellipsis; PageButton false 12; Next false 7].
Proof.
  destruct (pagination_current_page (set_currentPage (constructor "" "") 6) 115)
    as (Hbar & _).
  - reflexivity.
  - vm_compute. split; discriminate.
  - rewrite Hbar. reflexivity.
Defined.

(** Forty-five items on page 3 of five: buttons for all five pages. *)
Lemma pagination_window_witness :
  (List.length (page_numbers (pagination (renderPagination
     (set_currentPage (constructor "" "") 3) 45))) <= 7)%nat.
Proof.
  apply (pagination_window (set_currentPage (constructor "" "") 3) 45).
  reflexivity.
Defined.

End PaginationBar.

(** ** The product table *)

Section ProductTable.
Import AdminPanel.




Lemma slice_end_zero {A : Type} (l : list A) (start : Z) : JS.slice l start 0 = [].
Proof.
  unfold JS.slice. change (0 <? 0) with false. cbv iota.
  rewrite (Z.min_l 0) by lia.
  replace (Z.to_nat (0 - _)) with 0%nat; [reflexivity|].
  destruct (Z.ltb_spec start 0); lia.
Qed.

(** X7: a page outside the pages of the list.  Page 0 and every page after
    the last one, [ceil (n / pageSize)], yield no row. *)
Theorem getPaginatedProducts_out_of_range (this : t) (ps : list product) :
  1 <= itemsPerPage this ->
  currentPage this = 0 \/
  JS.ceil_div (Z.of_nat (List.length ps)) (itemsPerPage this) < currentPage this ->
  getPaginatedProducts this ps = [].
Proof.
  intros Hsize [Hzero|Hlate].
  - unfold getPaginatedProducts. rewrite Hzero.
    replace ((0 - 1) * itemsPerPage this + itemsPerPage this) with 0 by lia.
    apply slice_end_zero.
  - pose proof (ceil_div_bounds (Z.of_nat (List.length ps)) (itemsPerPage this)
                  ltac:(lia)) as [_ Hcover].
    pose proof (ceil_div_nonneg (Z.of_nat (List.length ps)) (itemsPerPage this)
                  ltac:(lia) ltac:(lia)).
    rewrite getPaginatedProducts_take_drop by lia.
    rewrite drop_ge by nia. apply take_nil.
Qed.

(** Page 2 of the four mock products. *)
Lemma getPaginatedProducts_out_of_range_witness :
  getPaginatedProducts (set_currentPage (constructor "" "") 2) mockProducts = [].
Proof.
  apply getPaginatedProducts_out_of_range; [discriminate | right; reflexivity].
Defined.

(** X8: a list that fits on one page.  On page 1, when between one and
    [pageSize] products match the filter, rendering shows exactly the
    matching products, in the order of the list, sets the page count to 1
    and renders no pagination control. *)
Theorem renderProducts_single_page (this : t) :
  currentPage this = 1 ->
  (0 < List.length (getFilteredProducts this))%nat ->
  Z.of_nat (List.length (getFilteredProducts this)) <= itemsPerPage this ->
  tableBody (renderProducts this) = getFilteredProducts this /\
  totalPages (renderProducts this) = 1 /\
  pagination (renderProducts this) = [].
Proof.
  intros Hpage Hsome Hfit. unfold renderProducts.
  rewrite getPaginatedProducts_take_drop; [|lia|lia].
  rewrite Hpage. replace ((1 - 1) * itemsPerPage this) with 0 by lia.
  change (Z.to_nat 0) with 0%nat. rewrite drop_0, take_ge by lia.
  destruct (getFilteredProducts this) as [|r rows] eqn:Hrows; [simpl in Hsome; lia|].
  assert (Hone : JS.ceil_div (Z.of_nat (List.length (r :: rows))) (itemsPerPage this) = 1).
  { pose proof (ceil_div_bounds (Z.of_nat (List.length (r :: rows))) (itemsPerPage this)
                  ltac:(simpl in *; lia)) as [Hlo Hhi].
    simpl List.length in *. nia. }
  unfold renderPagination. simpl tableBody. simpl totalPages. simpl pagination.
  change (S (List.length rows)) with (List.length (r :: rows)).
  rewrite Hone. now split.
Qed.

(** The four mock products. *)
Lemma renderProducts_single_page_witness :
  tableBody (loadMockProducts (constructor "" "")) = mockProducts.
Proof.
  destruct (renderProducts_single_page (set_products (constructor "" "") mockProducts))
    as [Hrows _].
  - reflexivity.
  - vm_compute. lia.
  - vm_compute. discriminate.
  - exact Hrows.
Defined.



(** X10: a reload keeps the page.  When the product list is loaded again
    while a page after the first is shown, and the new list has no
    matching product left for that page, the table shows no row although
    the list may hold products, and the page, the page count and the
    pagination controls stay as they were before the reload. *)
Theorem loadProducts_keeps_page (this : t) (l : list product) (ms status : Z) :
  1 <= itemsPerPage this ->
  1 < currentPage this ->
  Z.of_nat (List.length (getFilteredProducts (set_products this l)))
  <= (currentPage this - 1) * itemsPerPage this ->
  let reloaded := loadProducts this
                    (Net.Settles ms (Net.Response true status
                                       (Net.BodyJson (ProductsArray l)))) in
  products reloaded = l /\
  tableBody reloaded = [] /\
  currentPage reloaded = currentPage this /\
  totalPages reloaded = totalPages this /\
  pagination reloaded = pagination this.
Proof.
  intros Hsize Hpage Hfew reloaded. subst reloaded.
  unfold loadProducts. simpl. unfold renderProducts.
  assert (Hnone : getPaginatedProducts (set_products (set_tableBody this []) l)
                    (getFilteredProducts (set_products (set_tableBody this []) l)) = []).
  { rewrite getPaginatedProducts_take_drop by (simpl; lia). simpl.
    change (getFilteredProducts (set_products (set_tableBody this []) l))
      with (getFilteredProducts (set_products this l)).
    rewrite drop_ge by lia. apply take_nil. }
  rewrite Hnone. repeat split.
Qed.

(** Eight products loaded while page 2 is shown. *)
Lemma loadProducts_keeps_page_witness :
  tableBody (loadProducts (set_currentPage (constructor "" "") 2)
               (Net.Settles 10 (Net.Response true 200
                  (Net.BodyJson (ProductsArray (mockProducts ++ mockProducts)))))) = [].
Proof.
  apply (loadProducts_keeps_page (set_currentPage (constructor "" "") 2)
           (mockProducts ++ mockProducts) 10 200); vm_compute; discriminate || reflexivity.
Defined.

End ProductTable.

(** ** Modals and the requests that change products *)

Section PanelFacts.
Import AdminPanel.

Lemma find_product_some (this : t) (productId : Z) (product : product) :
  find_product this productId = Some product ->
  List.In product (products this) /\ id product = productId.
Proof.
  unfold find_product. intros Hfind. apply List.find_some in Hfind as [Hin Hid].
  split; [exact Hin | now apply Z.eqb_eq].
Qed.

Lemma find_product_none (this : t) (productId : Z) :
  (forall x, List.In x (products this) -> id x <> productId) ->
  find_product this productId = None.
Proof.
  intros Hnone. unfold find_product.
  destruct (List.find _ _) as [x|] eqn:Hfind; [|reflexivity].
  apply List.find_some in Hfind as [Hin Hid]. apply Z.eqb_eq in Hid.
  now contradiction (Hnone x Hin).
Qed.

Lemma apiRequest_rejected {J : Type} (net : Net.network J) (e : Net.error) :
  fst (apiRequest net) = Net.Rejected e ->
  apiRequest net = (Net.Rejected e, ["Error connecting to server"]).
Proof.
  unfold apiRequest. destruct net as [ms r|]; [|discriminate].
  destruct (Net.read_json r); simpl; try discriminate. now intros [= ->].
Qed.

Lemma act_modal_inv (p : panel) (a : action) : modal_inv p -> modal_inv (act p a).
Proof.
  intros [Hdel Hedit]. unfold modal_inv.
  destruct a as [productId|productId| | | | |net next|net next|net next|c]; simpl.
  - unfold editProduct.
    destruct (find_product (view p) productId) as [product|] eqn:Hfind; simpl;
      [|now split].
    split; [exact Hdel|]. intros _. exists product.
    apply find_product_some in Hfind as [_ <-]. now split.
  - unfold confirmDelete.
    destruct (find_product (view p) productId) as [product|] eqn:Hfind; simpl;
      [|now split].
    split; [|exact Hedit]. intros _. exists product.
    apply find_product_some in Hfind as [_ <-]. now split.
  - split; [exact Hdel | discriminate].
  - split; [discriminate | exact Hedit].
  - split; [exact Hdel | discriminate].
  - split; [discriminate | exact Hedit].
  - unfold addProduct. destruct (apiRequest net) as [[v|e|] shown]; simpl; now split.
  - unfold updateProduct. destruct (apiRequest net) as [[v|e|] shown]; simpl;
      now split.
  - unfold deleteProduct. destruct (apiRequest net) as [[v|e|] shown]; simpl;
      now split.
  - now split.
Qed.

Lemma panel_reachable_inv (p : panel) : panel_reachable p -> modal_inv p.
Proof.
  induction 1 as [search cat net|p a _ IH].
  - split; discriminate.
  - now apply act_modal_inv.
Qed.

(** X11: what an open modal acts on.  In every panel reachable from
    initialisation, a delete modal that is shown shows a product, and the
    request a click on its confirm button sends first is the deletion of
    that product's id; an edit modal that is shown is filled from a
    product, and submitting it sends first the update of that product's
    id.  A click on the overlay hides a modal but, unlike the close and
    cancel buttons, leaves the pending id as it was. *)
Theorem open_modal_targets_shown_product (p : panel) :
  panel_reachable p ->
  (deleteModal p = true ->
   exists product,
     deletePreview p = Some product /\
     forall (net : Net.network unit) next,
       List.hd_error (snd (deleteProduct (Body := unit) p net next))
       = Some (DELETE_product (Some (id product)))) /\
  (editModal p = true ->
   exists product,
     editForm p = Some product /\
     forall (body : unit) (net : Net.network unit) next,
       List.hd_error (snd (updateProduct p body net next))
       = Some (PUT_product (Some (id product)) body)) /\
  (deleteModal (overlayClickDelete p) = false /\
   currentDeleteId (overlayClickDelete p) = currentDeleteId p /\
   currentDeleteId (closeDeleteModal p) = None) /\
  (editModal (overlayClickEdit p) = false /\
   currentEditId (overlayClickEdit p) = currentEditId p /\
   currentEditId (closeEditModal p) = None).
Proof.
  intros Hreach. destruct (panel_reachable_inv p Hreach) as [Hdel Hedit].
  split; [|split; [|split; repeat split]].
  - intros Hopen. destruct (Hdel Hopen) as (product & Hshown & Hid).
    exists product. split; [exact Hshown|]. intros net next.
    unfold deleteProduct. rewrite Hid.
    now destruct (apiRequest net) as [[v|e|] shown].
  - intros Hopen. destruct (Hedit Hopen) as (product & Hshown & Hid).
    exists product. split; [exact Hshown|]. intros body net next.
    unfold updateProduct. rewrite Hid.
    now destruct (apiRequest net) as [[v|e|] shown].
Qed.

(** The delete modal opened on the second mock product. *)
Lemma open_modal_targets_shown_product_witness :
  deleteModal (overlayClickDelete
                 (act (initial_panel "" "" (Net.Settles 10 Net.NetworkError))
                      (ConfirmDelete 2))) = false.
Proof.
  apply (open_modal_targets_shown_product
           (act (initial_panel "" "" (Net.Settles 10 Net.NetworkError)) (ConfirmDelete 2))
           (panel_act _ _ (panel_init "" "" (Net.Settles 10 Net.NetworkError)))).
Defined.

(** X12: choosing a product to edit or delete.  If no product of the list
    has the id, neither [editProduct] nor [confirmDelete] changes
    anything; otherwise the first product of the list with that id is
    the one shown in the modal, the id becomes the pending id, the modal
    is shown, and the list and the other modal stay as they were. *)
Theorem choose_product (p : panel) (productId : Z) :
  ((forall x, List.In x (products (view p)) -> id x <> productId) ->
   editProduct p productId = p /\ confirmDelete p productId = p) /\
  (forall product, find_product (view p) productId = Some product ->
     List.In product (products (view p)) /\ id product = productId /\
     confirmDelete p productId
     = mkPanel (view p) (currentEditId p) (Some productId) (editModal p) true
               (editForm p) (Some product) /\
     editProduct p productId
     = mkPanel (view p) (Some productId) (currentDeleteId p) true (deleteModal p)
               (Some product) (deletePreview p)) /\
  ((exists x, List.In x (products (view p)) /\ id x = productId) ->
   exists product, find_product (view p) productId = Some product).
Proof.
  split; [|split].
  - intros Hnone. unfold editProduct, confirmDelete.
    now rewrite (find_product_none _ _ Hnone).
  - intros product Hfind. unfold editProduct, confirmDelete. rewrite Hfind.
    apply find_product_some in Hfind as [Hin Hid]. now repeat split.
  - intros (x & Hin & Hid). unfold find_product.
    destruct (List.find _ _) as [y|] eqn:Hfind; [now exists y|].
    pose proof (List.find_none _ _ Hfind x Hin) as Hno.
    apply Z.eqb_neq in Hno. now contradiction Hno.
Qed.

(** X13: a request that fails.  When the request of an addition, an update
    or a deletion is rejected (network error, non-2xx status, body that
    is no JSON), the panel stays exactly as it was (product list, table,
    page, pending ids, modals), no reload is requested, and two error
    notifications are shown: the one of [apiRequest] and the one of the
    handler. *)
Theorem failed_request_changes_nothing {Body J : Type} (p : panel) (body : Body)
    (net : Net.network J) (next : Net.network api_json) (e : Net.error) :
  fst (apiRequest net) = Net.Rejected e ->
  addProduct p body net next
  = (p, ["Error connecting to server"; "Failed to add product"], [POST_products body]) /\
  updateProduct p body net next
  = (p, ["Error connecting to server"; "Failed to update product"],
     [PUT_product (currentEditId p) body]) /\
  deleteProduct (Body := Body) p net next
  = (p, ["Error connecting to server"; "Failed to delete product"],
     [DELETE_product (currentDeleteId p)]).
Proof.
  intros Hrej. unfold addProduct, updateProduct, deleteProduct.
  rewrite (apiRequest_rejected net e Hrej). now repeat split.
Qed.

(** A deletion answered with status 500. *)
Lemma failed_request_changes_nothing_witness :
  fst (fst (deleteProduct (Body := unit)
              (initial_panel "" "" (Net.Settles 10 Net.NetworkError))
              (Net.Settles 10 (Net.Response false 500 (Net.BodyInvalid (J := unit))))
              Net.Hangs))
  = initial_panel "" "" (Net.Settles 10 Net.NetworkError).
Proof.
  destruct (failed_request_changes_nothing (Body := unit)
              (initial_panel "" "" (Net.Settles 10 Net.NetworkError)) tt
              (Net.Settles 10 (Net.Response false 500 (Net.BodyInvalid (J := unit))))
              Net.Hangs (Net.HttpError 500) eq_refl) as (_ & _ & Hdel).
  now rewrite Hdel.
Defined.

(** X14: a request that succeeds.  After a successful addition, update or
    deletion the product list is requested again; an update closes the
    edit modal and a deletion the delete modal, clearing the pending id;
    the list shown afterwards is the list the reload returns, and when
    the reload fails it is the list of mock products, announced by the
    success notification followed by the error notification. *)
Theorem successful_request_reloads {Body J : Type} (p : panel) (body : Body)
    (net : Net.network J) (next : Net.network api_json) (v : J) :
  fst (apiRequest net) = Net.Resolved v ->
  (addProduct p body net next
   = (set_view p (loadProducts (view p) next),
      "Product added successfully" :: snd (apiRequest next),
      [POST_products body; GET_products]) /\
   updateProduct p body net next
   = (set_view (closeEditModal p) (loadProducts (view p) next),
      "Product updated successfully" :: snd (apiRequest next),
      [PUT_product (currentEditId p) body; GET_products]) /\
   deleteProduct (Body := Body) p net next
   = (set_view (closeDeleteModal p) (loadProducts (view p) next),
      "Product deleted successfully" :: snd (apiRequest next),
      [DELETE_product (currentDeleteId p); GET_products])) /\
  (forall e, fst (apiRequest next) = Net.Rejected e ->
             products (loadProducts (view p) next) = mockProducts /\
             snd (apiRequest next) = ["Error connecting to server"]) /\
  (forall ms status l,
      next = Net.Settles ms (Net.Response true status (Net.BodyJson (ProductsArray l))) ->
      products (loadProducts (view p) next) = l /\ snd (apiRequest next) = []).
Proof.
  intros Hok. split; [|split].
  - unfold addProduct, updateProduct, deleteProduct, reload.
    destruct (apiRequest net) as [[w|e|] shown]; try discriminate. now repeat split.
  - intros e Hrej. rewrite (apiRequest_rejected next e Hrej). split; [|reflexivity].
    unfold loadProducts. rewrite (apiRequest_rejected next e Hrej). simpl.
    unfold loadMockProducts, renderProducts. now destruct (getPaginatedProducts _ _).
  - intros ms status l ->. split; [|reflexivity].
    unfold loadProducts. simpl. unfold renderProducts.
    now destruct (getPaginatedProducts _ _).
Qed.

(** A deletion that succeeds, followed by a reload that fails. *)
Lemma successful_request_reloads_witness :
  products (view (fst (fst (deleteProduct (Body := unit)
     (initial_panel "" "" (Net.Settles 10 Net.NetworkError))
     (Net.Settles 10 (Net.Response true 200 (Net.BodyJson tt)))
     (Net.Settles 10 Net.NetworkError)))))
  = mockProducts.
Proof.
  destruct (successful_request_reloads (Body := unit)
              (initial_panel "" "" (Net.Settles 10 Net.NetworkError)) tt
              (Net.Settles 10 (Net.Response true 200 (Net.BodyJson tt)))
              (Net.Settles 10 Net.NetworkError) tt eq_refl)
    as ((_ & _ & Hdel) & Hmock & _).
  rewrite Hdel. simpl. apply (Hmock Net.FetchFailed). reflexivity.
Defined.

End PanelFacts.

(** ** Form data of the admin panel *)

Section FormDataFacts.
Import AdminPanel.
Context {number : Type} (parseFloat parseInt : string -> number).

Lemma assign_lookup_other (data : gmap string (field number)) (entry : string * string)
    (key : string) :
  fst entry <> key -> assign data entry !! key = data !! key.
Proof.
  intros Hne. unfold assign.
  destruct (String.eqb (fst entry) "images"); [reflexivity|].
  destruct (String.eqb (fst entry) "__proto__"); [reflexivity|].
  now apply lookup_insert_ne.
Qed.

Lemma assign_lookup_same (data : gmap string (field number)) (entry : string * string) :
  fst entry <> "images" -> fst entry <> "__proto__" ->
  assign data entry !! fst entry = Some (Text (snd entry)).
Proof.
  intros Himg Hproto. unfold assign.
  destruct (String.eqb_spec (fst entry) "images"); [contradiction|].
  destruct (String.eqb_spec (fst entry) "__proto__"); [contradiction|].
  apply lookup_insert_eq.
Qed.

Lemma assign_skips (data : gmap string (field number)) (entry : string * string)
    (key : string) :
  key = "images" \/ key = "__proto__" -> assign data entry !! key = data !! key.
Proof.
  intros Hkey. unfold assign.
  destruct (String.eqb_spec (fst entry) "images") as [Ei|Ni]; [reflexivity|].
  destruct (String.eqb_spec (fst entry) "__proto__") as [Ep|Np]; [reflexivity|].
  apply lookup_insert_ne. destruct Hkey; congruence.
Qed.

Lemma fold_assign_skips (formData : list (string * string))
    (data : gmap string (field number)) (key : string) :
  key = "images" \/ key = "__proto__" ->
  List.fold_left assign formData data !! key = data !! key.
Proof.
  intros Hkey. revert data. induction formData as [|entry rest IH]; intros data;
    [reflexivity|].
  simpl. rewrite IH. now apply assign_skips.
Qed.

Lemma fold_last_some (key : string) (formData : list (string * string)) (v : string) :
  exists w, List.fold_left (fun found entry => if String.eqb (fst entry) key
                                               then Some (snd entry) else found)
                           formData (Some v) = Some w.
Proof.
  revert v. induction formData as [|entry rest IH]; intros v; simpl; [now exists v|].
  destruct (String.eqb (fst entry) key); apply IH.
Qed.

Lemma fold_assign_lookup (key : string) (formData : list (string * string))
    (data : gmap string (field number)) (found : option string) :
  key <> "images" -> key <> "__proto__" ->
  (forall v, found = Some v -> data !! key = Some (Text v)) ->
  List.fold_left assign formData data !! key
  = match List.fold_left (fun found entry => if String.eqb (fst entry) key
                                             then Some (snd entry) else found)
                         formData found with
    | Some v => Some (Text v)
    | None => data !! key
    end.
Proof.
  intros Himg Hproto. revert data found.
  induction formData as [|entry rest IH]; intros data found Hfound; simpl.
  - destruct found as [v|]; [now apply Hfound | reflexivity].
  - destruct (String.eqb_spec (fst entry) key) as [E|N].
    + rewrite (IH (assign data entry) (Some (snd entry))).
      * destruct (fold_last_some key rest (snd entry)) as [w ->]. reflexivity.
      * intros v [= <-]. rewrite <- E. apply assign_lookup_same; congruence.
    + rewrite (IH (assign data entry) found).
      * destruct (List.fold_left _ rest found); [reflexivity|].
        now apply assign_lookup_other.
      * intros v Hv. rewrite assign_lookup_other by assumption. now apply Hfound.
Qed.

Lemma to_number_lookup_other (parse : string -> number) (key key' : string)
    (data : gmap string (field number)) :
  key <> key' -> to_number parse key data !! key' = data !! key'.
Proof.
  intros Hne. unfold to_number.
  destruct (data !! key) as [[s|n]|]; try reflexivity.
  destruct (JS.truthy s); [|reflexivity]. now apply lookup_insert_ne.
Qed.

Lemma to_number_lookup_same (parse : string -> number) (key : string)
    (data : gmap string (field number)) :
  to_number parse key data !! key
  = match data !! key with
    | Some (Text s) => Some (if JS.truthy s then Number (parse s) else Text s)
    | other => other
    end.
Proof.
  unfold to_number. destruct (data !! key) as [[s|n]|] eqn:E; try exact E.
  destruct (JS.truthy s); [apply lookup_insert_eq | exact E].
Qed.

(** X15: the object sent for a product form.  It never has an [images]
    property; every other field name carries the value of the last form
    entry of that name, as text; [price] and [stock] are converted with
    [parseFloat] and [parseInt] only when their text is not empty, so an
    empty price or stock field is sent as the empty text, not as a
    number. *)
Theorem prepareProductData_fields (formData : list (string * string)) :
  prepareProductData parseFloat parseInt formData !! "images" = None /\
  (forall key, key <> "images" -> key <> "__proto__" ->
               key <> "price" -> key <> "stock" ->
     prepareProductData parseFloat parseInt formData !! key
     = match last_value key formData with
       | Some v => Some (Text v)
       | None => None
       end) /\
  prepareProductData parseFloat parseInt formData !! "price"
  = match last_value "price" formData with
    | Some v => Some (if JS.truthy v then Number (parseFloat v) else Text v)
    | None => None
    end /\
  prepareProductData parseFloat parseInt formData !! "stock"
  = match last_value "stock" formData with
    | Some v => Some (if JS.truthy v then Number (parseInt v) else Text v)
    | None => None
    end.
Proof.
  unfold prepareProductData, last_value. repeat split.
  - rewrite !to_number_lookup_other by discriminate.
    rewrite fold_assign_skips by now left. apply lookup_empty.
  - intros key Himg Hproto Hprice Hstock.
    rewrite !to_number_lookup_other by congruence.
    rewrite (fold_assign_lookup key formData ∅ None) by (congruence || discriminate).
    destruct (List.fold_left _ formData None); [reflexivity | apply lookup_empty].
  - rewrite to_number_lookup_other by discriminate.
    rewrite to_number_lookup_same.
    rewrite (fold_assign_lookup "price" formData ∅ None) by discriminate.
    destruct (List.fold_left _ formData None); [reflexivity | now rewrite lookup_empty].
  - rewrite to_number_lookup_same.
    rewrite to_number_lookup_other by discriminate.
    rewrite (fold_assign_lookup "stock" formData ∅ None) by discriminate.
    destruct (List.fold_left _ formData None); [reflexivity | now rewrite lookup_empty].
Qed.

End FormDataFacts.

(** ** The stored collections of the local admin *)

Section CollectionFacts.
Import LocalAdmin.
Context {S : Type} `{Storage S}.

Lemma getItem_saveLocal_other (s s' : S) (key key' : string) (arr : list record) :
  saveLocal s key arr = inl s' -> key <> key' -> getItem s' key' = getItem s key'.
Proof.
  unfold saveLocal. intros Hset Hne.
  rewrite (getItem_setItem _ _ _ _ key' Hset).
  destruct (String.eqb_spec key key'); [contradiction | reflexivity].
Qed.

(** X16: saving and loading.  After a save that succeeded, loading the same
    key yields the saved array, and every other key holds what it held
    before; a key that is missing, or whose text is no JSON, loads as the
    empty array. *)
Theorem saveLocal_then_loadLocal (s s' : S) (key : string) (arr : list record) :
  saveLocal s key arr = inl s' ->
  loadLocal s' key = JArray arr /\
  (forall key', key <> key' -> getItem s' key' = getItem s key') /\
  (forall t key', getItem t key' = None -> loadLocal t key' = JArray []) /\
  (forall t key' raw, getItem t key' = Some (TRaw raw) -> loadLocal t key' = JArray []).
Proof.
  intros Hsave. split; [exact (loadLocal_saveLocal _ _ _ _ Hsave)|]. split; [|split].
  - intros key' Hne. now apply (getItem_saveLocal_other s s' key key' arr).
  - intros t key' Hnone. unfold loadLocal. now rewrite Hnone.
  - intros t key' raw Hraw. unfold loadLocal. now rewrite Hraw.
Qed.

Lemma addProduct_frame (s : S) (now : Z) (f : product_form) (key : string) :
  key <> PRODUCTS_KEY -> getItem (addProduct s now f) key = getItem s key.
Proof.
  intros Hne. unfold addProduct.
  destruct (negb (JS.truthy (form_title f))); [reflexivity|].
  destruct (loadLocal s PRODUCTS_KEY) as [arr|]; [|reflexivity].
  destruct (saveLocal s PRODUCTS_KEY _) as [s'|err] eqn:Hsave; [|reflexivity].
  apply (getItem_saveLocal_other _ _ _ _ _ Hsave). congruence.
Qed.

Lemma deleteProduct_frame (s : S) (pid : Z) (key : string) :
  key <> PRODUCTS_KEY -> getItem (deleteProduct s pid) key = getItem s key.
Proof.
  intros Hne. unfold deleteProduct.
  destruct (loadLocal s PRODUCTS_KEY) as [arr|]; [|reflexivity].
  destruct (saveLocal s PRODUCTS_KEY _) as [s'|err] eqn:Hsave; [|reflexivity].
  apply (getItem_saveLocal_other _ _ _ _ _ Hsave). congruence.
Qed.

Lemma deleteCategory_frame (s : S) (cid : Z) (key : string) :
  key <> CATEGORIES_KEY -> getItem (deleteCategory s cid) key = getItem s key.
Proof.
  intros Hne. unfold deleteCategory.
  destruct (loadLocal s CATEGORIES_KEY) as [arr|]; [|reflexivity].
  destruct (saveLocal s CATEGORIES_KEY _) as [s'|err] eqn:Hsave; [|reflexivity].
  apply (getItem_saveLocal_other _ _ _ _ _ Hsave). congruence.
Qed.

(** X17: what the product handlers leave alone.  No sequence of product
    additions and deletions changes what is stored under any key other
    than the product key: the categories and every other entry of the
    storage stay as they were. *)
Theorem run_ops_frame (s : S) (ops : list op) (key : string) :
  key <> PRODUCTS_KEY ->
  getItem (run_ops s ops) key = getItem s key /\
  loadLocal (run_ops s ops) CATEGORIES_KEY = loadLocal s CATEGORIES_KEY.
Proof.
  intros Hne.
  assert (Hall : forall k, k <> PRODUCTS_KEY ->
                           getItem (run_ops s ops) k = getItem s k).
  { intros k Hk. unfold run_ops. revert s.
    induction ops as [|o ops IH]; intros s; [reflexivity|]. simpl.
    rewrite IH. destruct o as [now f|pid]; simpl.
    - now apply addProduct_frame.
    - now apply deleteProduct_frame. }
  split; [now apply Hall|]. unfold loadLocal. rewrite Hall; [reflexivity|discriminate].
Qed.

(** X18: deleting a category does not cascade.  Whatever category is
    deleted, the stored products stay exactly as they were, so a product
    that refers to the deleted category keeps that reference; and the
    stored categories either stay as they were (nothing was saved) or
    become the stored array without the records of that id, the others
    in their order. *)
Theorem deleteCategory_no_cascade (s : S) (cid : Z) :
  getItem (deleteCategory s cid) PRODUCTS_KEY = getItem s PRODUCTS_KEY /\
  loadLocal (deleteCategory s cid) PRODUCTS_KEY = loadLocal s PRODUCTS_KEY /\
  (deleteCategory s cid = s \/
   exists arr, loadLocal s CATEGORIES_KEY = JArray arr /\
               loadLocal (deleteCategory s cid) CATEGORIES_KEY
               = JArray (List.filter (fun x => negb (record_id x =? cid)) arr)).
Proof.
  assert (Hframe : getItem (deleteCategory s cid) PRODUCTS_KEY = getItem s PRODUCTS_KEY)
    by (apply deleteCategory_frame; discriminate).
  split; [exact Hframe|]. split; [unfold loadLocal; now rewrite Hframe|].
  unfold deleteCategory.
  destruct (loadLocal s CATEGORIES_KEY) as [arr|] eqn:Hload; [|now left].
  destruct (saveLocal s CATEGORIES_KEY _) as [s'|err] eqn:Hsave; [|now left].
  right. exists arr. split; [reflexivity|]. exact (loadLocal_saveLocal _ _ _ _ Hsave).
Qed.

Lemma deleteProduct_cases (s : S) (pid : Z) (arr : list record) :
  loadLocal s PRODUCTS_KEY = JArray arr ->
  deleteProduct s pid = s \/
  loadLocal (deleteProduct s pid) PRODUCTS_KEY
  = JArray (List.filter (fun x => negb (record_id x =? pid)) arr).
Proof.
  intros Hload. unfold deleteProduct. rewrite Hload.
  destruct (saveLocal s PRODUCTS_KEY _) as [s'|err] eqn:Hsave; [|now left].
  right. exact (loadLocal_saveLocal _ _ _ _ Hsave).
Qed.

Lemma filter_absent_id (pid : Z) (arr : list record) :
  (forall x, List.In x arr -> record_id x <> pid) ->
  List.filter (fun x => negb (record_id x =? pid)) arr = arr.
Proof.
  intros Habsent. apply List.forallb_filter_id. apply List.forallb_forall.
  intros x Hx. apply negb_true_iff, Z.eqb_neq. now apply Habsent.
Qed.

(** X19: deleting a product.  With an array stored under the product key,
    the handler writes the array without the records of that id, the
    others in their order.  When that write succeeds, its result is the
    store afterwards: loading the key yields that array, the id is no
    longer among the stored ids, and every other key holds what it held.
    When the write fails, the store stays as it was.  When no stored
    record has the id, the array written is the stored array. *)
Theorem deleteProduct_removes (s : S) (pid : Z) (arr : list record) :
  loadLocal s PRODUCTS_KEY = JArray arr ->
  (forall s',
      saveLocal s PRODUCTS_KEY (List.filter (fun x => negb (record_id x =? pid)) arr)
      = inl s' ->
      deleteProduct s pid = s' /\
      loadLocal s' PRODUCTS_KEY
      = JArray (List.filter (fun x => negb (record_id x =? pid)) arr) /\
      ~ List.In pid (stored_ids s') /\
      (forall key, key <> PRODUCTS_KEY -> getItem s' key = getItem s key)) /\
  (forall e,
      saveLocal s PRODUCTS_KEY (List.filter (fun x => negb (record_id x =? pid)) arr)
      = inr e ->
      deleteProduct s pid = s) /\
  (forall x, List.In x (List.filter (fun x => negb (record_id x =? pid)) arr) <->
             List.In x arr /\ record_id x <> pid) /\
  ((forall x, List.In x arr -> record_id x <> pid) ->
   List.filter (fun x => negb (record_id x =? pid)) arr = arr).
Proof.
  intros Hload. split; [|split; [|split]].
  - intros s' Hsave.
    assert (Hsaved := loadLocal_saveLocal _ _ _ _ Hsave).
    split; [unfold deleteProduct; now rewrite Hload, Hsave|].
    split; [exact Hsaved|]. split.
    + unfold stored_ids. rewrite Hsaved, record_ids_filter.
      intros Hin. apply List.filter_In in Hin as [_ Hne].
      now rewrite Z.eqb_refl in Hne.
    + intros key Hne. apply (getItem_saveLocal_other _ _ _ _ _ Hsave). congruence.
  - intros e Hsave. unfold deleteProduct. now rewrite Hload, Hsave.
  - intros x. rewrite List.filter_In, negb_true_iff, Z.eqb_neq. reflexivity.
  - apply filter_absent_id.
Qed.

(** X20: adding and then deleting.  With an array stored that holds no
    record of id [now], a product with a title is added at clock value
    [now] and the id [now] is deleted.  When both writes succeed, the
    stored array is again the one from before the addition.  When the
    addition is written and the deletion is not, the new product stays in
    front of it.  When the addition is not written, the store is as it
    was after the addition, and the array as it was after the deletion. *)
Theorem add_then_delete (s : S) (now : Z) (f : product_form) (arr : list record) :
  loadLocal s PRODUCTS_KEY = JArray arr ->
  (forall x, List.In x arr -> record_id x <> now) ->
  JS.truthy (form_title f) = true ->
  let added := Product (mkProduct now (form_title f) (form_price f) (form_description f)
                                  (form_image f) (form_category f)) in
  (forall s1, saveLocal s PRODUCTS_KEY (added :: arr) = inl s1 ->
     addProduct s now f = s1 /\
     (forall s2, saveLocal s1 PRODUCTS_KEY arr = inl s2 ->
        deleteProduct s1 now = s2 /\ loadLocal s2 PRODUCTS_KEY = JArray arr) /\
     (forall e, saveLocal s1 PRODUCTS_KEY arr = inr e ->
        deleteProduct s1 now = s1 /\ loadLocal s1 PRODUCTS_KEY = JArray (added :: arr))) /\
  (forall e, saveLocal s PRODUCTS_KEY (added :: arr) = inr e ->
     addProduct s now f = s /\
     loadLocal (deleteProduct s now) PRODUCTS_KEY = JArray arr).
Proof.
  intros Hload Hfresh Htitle added. subst added. split.
  - intros s1 Hsave1.
    assert (Hadded := loadLocal_saveLocal _ _ _ _ Hsave1).
    assert (Hkeep : forall p, record_id p = now ->
              List.filter (fun x => negb (record_id x =? now)) (p :: arr) = arr).
    { intros p Hp. simpl. rewrite Hp, Z.eqb_refl. simpl. now apply filter_absent_id. }
    specialize (Hkeep (Product (mkProduct now (form_title f) (form_price f)
                                  (form_description f) (form_image f) (form_category f)))
                      eq_refl).
    split; [unfold addProduct; rewrite Htitle; simpl; now rewrite Hload, Hsave1|].
    split.
    + intros s2 Hsave2. split; [|exact (loadLocal_saveLocal _ _ _ _ Hsave2)].
      unfold deleteProduct. rewrite Hadded, Hkeep. now rewrite Hsave2.
    + intros e Hsave2. split; [|exact Hadded].
      unfold deleteProduct. rewrite Hadded, Hkeep. now rewrite Hsave2.
  - intros e Hsave1.
    assert (Hsame : addProduct s now f = s)
      by (unfold addProduct; rewrite Htitle; simpl; now rewrite Hload, Hsave1).
    split; [exact Hsame|].
    destruct (deleteProduct_cases s now arr Hload) as [-> | ->]; [exact Hload|].
    now rewrite filter_absent_id.
Qed.

(** X21: stored content the handlers do not expect.  When the product key
    holds JSON that is no array, neither an addition nor a deletion
    changes the store; when it holds text that is no JSON, or is missing,
    an addition that is saved stores the one new product, so the text is
    overwritten. *)
Theorem unexpected_content (s : S) (now : Z) (f : product_form) (pid : Z) :
  (loadLocal s PRODUCTS_KEY = JOther ->
   addProduct s now f = s /\ deleteProduct s pid = s) /\
  ((getItem s PRODUCTS_KEY = None \/ exists raw, getItem s PRODUCTS_KEY = Some (TRaw raw)) ->
   addProduct s now f = s \/
   getItem (addProduct s now f) PRODUCTS_KEY
   = Some (JSON_stringify
             [Product (mkProduct now (form_title f) (form_price f) (form_description f)
                                 (form_image f) (form_category f))])).
Proof.
  split.
  - intros Hother. unfold addProduct, deleteProduct. rewrite Hother.
    now destruct (negb (JS.truthy (form_title f))).
  - intros Hraw.
    assert (Hload : loadLocal s PRODUCTS_KEY = JArray [])
      by (unfold loadLocal; destruct Hraw as [-> | [raw ->]]; reflexivity).
    unfold addProduct. destruct (negb (JS.truthy (form_title f))); [now left|].
    rewrite Hload.
    destruct (saveLocal s PRODUCTS_KEY _) as [s'|err] eqn:Hsave; [|now left].
    right. unfold saveLocal in Hsave.
    rewrite (getItem_setItem _ _ _ _ PRODUCTS_KEY Hsave). now rewrite String.eqb_refl.
Qed.

End CollectionFacts.

(** ** The forms of the local admin *)

Section TrimFacts.
Import LocalAdmin.





End TrimFacts.

Section FormFacts.
Import LocalAdmin.
Context `{FloatOps} (B : browser) {S : Type} `{Storage S}.



(** X23: a file selected before the submission.  When the page has the
    image text input and the file chosen in the file input could be read,
    the [change] handler puts the file's data URL into the text input,
    and the submission stores that text, trimmed, as the image: the file
    is stored as it is, whatever its size, and is neither resized nor
    read again. *)
Theorem selected_file_stored_unresized (i : product_inputs) (f : File)
    (attempt : nat) (value data : string) :
  input_image i = Some value ->
  readAsDataURL B f attempt = Some data ->
  JS.truthy (trim data) = true ->
  submitted_image B (onProductFileChange B i (Some f) attempt) = Fulfilled (trim data).
Proof.
  intros Hinput Hread Hdata. unfold onProductFileChange, fileToDataURL.
  rewrite Hread. unfold submitted_image, set_input_image, select_file.
  cbn [input_image input_file]. rewrite Hinput, Hdata. cbv iota.
  now rewrite Hdata.
Qed.

(** X24: a file selected on a page without the image text input, or a file
    that could not be read when it was selected.  The submission then
    converts the file itself: the stored image is the result of
    [convertFileForStorage]. *)
Theorem selected_file_converted (i : product_inputs) (f : File) (attempt : nat) :
  input_image i = None \/
  (input_image i = Some "" /\ readAsDataURL B f attempt = None) ->
  submitted_image B (onProductFileChange B i (Some f) attempt)
  = convertFileForStorage B (Some f).
Proof.
  assert (Hsettled := convertFileForStorage_settled B f).
  intros [Hmissing|[Hempty Hread]]; unfold onProductFileChange, fileToDataURL.
  - destruct (readAsDataURL B f attempt);
      unfold submitted_image, set_input_image, select_file;
      cbn [input_image input_file]; rewrite Hmissing;
      cbv beta iota zeta delta [negb JS.truthy];
      destruct (convertFileForStorage B (Some f)); congruence.
  - rewrite Hread. unfold submitted_image, select_file.
    cbn [input_image input_file]. rewrite Hempty.
    cbv beta iota zeta delta [negb JS.truthy trim trimStart trimEnd].
    destruct (convertFileForStorage B (Some f)); congruence.
Qed.

(** X25: a large file that is no image.  When a file of more than 204800
    bytes is read but cannot be decoded as an image, the conversion
    stores what a second read of the file yields, the whole file as a
    data URL, and the empty string only when that read fails. *)
Theorem convertFileForStorage_undecodable (f : File) (src : string) :
  204800 < file_size f ->
  readAsDataURL B f 0 = Some src ->
  loadImage B src = None ->
  convertFileForStorage B (Some f)
  = Fulfilled match readAsDataURL B f 1 with
              | Some dataUrl => dataUrl
              | None => ""
              end.
Proof.
  intros Hlarge Hread Himg. unfold convertFileForStorage, THRESHOLD.
  change (200 * 1024) with 204800.
  destruct (Z.gtb_spec (file_size f) 204800); [|lia].
  unfold resizeImageFileToDataURL. rewrite Hread, Himg. simpl.
  now destruct (readAsDataURL B f 1).
Qed.

(** X26: adding a category.  The name is not checked: whatever the name
    input holds, also nothing or white space only, the submission writes
    the stored array with one new category in front, with the clock
    value as id and the trimmed name.  When that write succeeds its
    result is the store afterwards, and when it fails, or when the
    category key holds JSON that is no array, the store stays as it was.
    The stored products stay as they were.  A selected file, with the
    URL input empty or missing, is stored as the data URL of the whole
    file. *)
Theorem addCategory_stores (s : S) (now : Z) (name url : option string)
    (f : option File) (attempt : nat) :
  (forall arr, loadLocal s CATEGORIES_KEY = JArray arr ->
     (forall s',
        saveLocal s CATEGORIES_KEY
          (Category (mkCategory now (match name with Some n => trim n | None => "" end)
                                (category_image B url f attempt)) :: arr) = inl s' ->
        addCategory B s now name url f attempt = s' /\
        loadLocal s' CATEGORIES_KEY
        = JArray (Category (mkCategory now
                              (match name with Some n => trim n | None => "" end)
                              (category_image B url f attempt)) :: arr)) /\
     (forall e,
        saveLocal s CATEGORIES_KEY
          (Category (mkCategory now (match name with Some n => trim n | None => "" end)
                                (category_image B url f attempt)) :: arr) = inr e ->
        addCategory B s now name url f attempt = s)) /\
  (loadLocal s CATEGORIES_KEY = JOther -> addCategory B s now name url f attempt = s) /\
  getItem (addCategory B s now name url f attempt) PRODUCTS_KEY = getItem s PRODUCTS_KEY /\
  (forall file data,
      f = Some file -> readAsDataURL B file attempt = Some data ->
      (url = None \/ url = Some "") ->
      category_image B url f attempt = data).
Proof.
  split; [|split; [|split]].
  - intros arr Hload. unfold addCategory. rewrite Hload. split.
    + intros s' Hsave. rewrite Hsave.
      split; [reflexivity | exact (loadLocal_saveLocal _ _ _ _ Hsave)].
    + intros e Hsave. now rewrite Hsave.
  - intros Hother. unfold addCategory. now rewrite Hother.
  - unfold addCategory.
    destruct (loadLocal s CATEGORIES_KEY) as [arr|]; [|reflexivity].
    destruct (saveLocal s CATEGORIES_KEY _) as [s'|err] eqn:Hsave; [|reflexivity].
    apply (getItem_saveLocal_other _ _ _ _ _ Hsave). discriminate.
  - intros file data -> Hread Hurl. unfold category_image, fileToDataURL.
    destruct Hurl as [-> | ->]; simpl; now rewrite Hread.
Qed.

End FormFacts.

(** ** The handlers on a storage with a quota *)

Section QuotaStoreExamples.
Import LocalAdmin.

(** X3: a failed save can lose half of a collection.  In a storage whose
    quota counts characters, when the write of a collection is refused
    and the array stored under the same key has more than two entries,
    every truncation that is saved is followed by a refused retry: the
    function returns false after one alert, the key then holds only the
    front half of what was stored, and every other key holds what it
    held. *)
Theorem safeSaveLocal_loses_half (s s2 : QuotaStorage.store) (key : string)
    (arr existing : list record) (err : DOMException) :
  setItem s key (JSON_stringify arr) = inr err ->
  loadLocal s key = JArray existing ->
  (2 < List.length existing)%nat ->
  setItem s key (JSON_stringify (firstn (List.length existing / 2) existing)) = inl s2 ->
  fst (fst (safeSaveLocal s key arr)) = s2 /\
  snd (safeSaveLocal s key arr) = false /\
  alerts (snd (fst (safeSaveLocal s key arr))) = [quota_alert] /\
  loadLocal s2 key = JArray (firstn (List.length existing / 2) existing) /\
  (forall key', key <> key' -> getItem s2 key' = getItem s key').
Proof.
  intros Hfirst Hload Hlen Htrunc.
  assert (Hretry : setItem s2 key (JSON_stringify arr) = inr QuotaExceededError)
    by exact (retry_after_truncation _ _ _ _ _ _ Hfirst Htrunc).
  assert (Hquota : err = QuotaExceededError).
  { simpl in Hfirst. unfold QuotaStorage.set in Hfirst.
    destruct (_ <=? _)%nat; [discriminate | now injection Hfirst as <-]. }
  subst err. unfold loadLocal in Hload.
  unfold safeSaveLocal. rewrite Hfirst. rewrite Hload.
  destruct (Z.ltb_spec 2 (Z.of_nat (List.length existing))); [|lia].
  rewrite (slice_front_half existing Hlen). rewrite Htrunc. rewrite Hretry.
  repeat split.
  - exact (loadLocal_saveLocal _ _ _ _ Htrunc).
  - intros key' Hne. exact (getItem_saveLocal_other _ _ _ _ _ Htrunc Hne).
Qed.

(** Four products stored, the quota used up, five products to save. *)
Lemma safeSaveLocal_loses_half_witness :
  loadLocal (fst (fst (safeSaveLocal QuotaStorage.crowded PRODUCTS_KEY
      [QuotaStorage.anklet; QuotaStorage.pendant; QuotaStorage.bangle;
       QuotaStorage.chain; QuotaStorage.ring]))) PRODUCTS_KEY
  = JArray [QuotaStorage.pendant; QuotaStorage.bangle].
Proof.
  destruct (safeSaveLocal_loses_half QuotaStorage.crowded
              (QuotaStorage.mkStore
                 (<[PRODUCTS_KEY := JSON_stringify [QuotaStorage.pendant; QuotaStorage.bangle]]>
                    (QuotaStorage.content QuotaStorage.crowded)) 474)
              PRODUCTS_KEY
              [QuotaStorage.anklet; QuotaStorage.pendant; QuotaStorage.bangle;
               QuotaStorage.chain; QuotaStorage.ring]
              [QuotaStorage.pendant; QuotaStorage.bangle; QuotaStorage.chain;
               QuotaStorage.ring]
              QuotaExceededError)
    as (Hstore & _ & _ & Hhalf & _).
  - vm_compute. reflexivity.
  - vm_compute. reflexivity.
  - simpl. lia.
  - vm_compute. reflexivity.
  - rewrite Hstore. exact Hhalf.
Defined.

(** Saving two products into an empty store. *)
Lemma saveLocal_then_loadLocal_witness :
  exists s', saveLocal (QuotaStorage.empty 4000) PRODUCTS_KEY
                       [QuotaStorage.chain; QuotaStorage.ring] = inl s'
             /\ loadLocal s' PRODUCTS_KEY = JArray [QuotaStorage.chain; QuotaStorage.ring].
Proof.
  destruct (saveLocal (QuotaStorage.empty 4000) PRODUCTS_KEY
              [QuotaStorage.chain; QuotaStorage.ring]) as [s'|err] eqn:Hsave;
    [|vm_compute in Hsave; discriminate].
  exists s'. split; [reflexivity|].
  exact (proj1 (saveLocal_then_loadLocal _ _ _ _ Hsave)).
Defined.

(** Product handlers on the full store leave the categories alone. *)
Lemma run_ops_frame_witness :
  getItem (run_ops QuotaStorage.full [Delete 1700000000001; Add 1700000000009
                                        (QuotaStorage.sample_form "Anklet")])
          CATEGORIES_KEY
  = getItem QuotaStorage.full CATEGORIES_KEY.
Proof.
  apply (run_ops_frame QuotaStorage.full
           [Delete 1700000000001; Add 1700000000009 (QuotaStorage.sample_form "Anklet")]
           CATEGORIES_KEY).
  discriminate.
Defined.

(** Deleting the older of the two products of the full store: the write
    succeeds and the chain is left. *)
Lemma deleteProduct_removes_witness :
  loadLocal (deleteProduct QuotaStorage.full 1700000000001) PRODUCTS_KEY
  = JArray [QuotaStorage.chain]
  /\ ~ List.In 1700000000001 (stored_ids (deleteProduct QuotaStorage.full 1700000000001)).
Proof.
  destruct (deleteProduct_removes QuotaStorage.full 1700000000001
              [QuotaStorage.chain; QuotaStorage.ring]) as (Hsaved & _).
  - vm_compute. reflexivity.
  - destruct (Hsaved (QuotaStorage.mkStore
                        (<[PRODUCTS_KEY := JSON_stringify [QuotaStorage.chain]]>
                           (QuotaStorage.content QuotaStorage.full)) 250))
      as (Hdelete & Hload & Hgone & _).
    + vm_compute. reflexivity.
    + rewrite Hdelete. split; [exact Hload | exact Hgone].
Defined.

(** An anklet added to the two stored products, with room to spare, and
    deleted again: both writes succeed. *)
Lemma add_then_delete_witness :
  loadLocal (deleteProduct
               (addProduct (QuotaStorage.mkStore (QuotaStorage.content QuotaStorage.full) 4000)
                           1700000000009 (QuotaStorage.sample_form "Anklet"))
               1700000000009)
            PRODUCTS_KEY
  = JArray [QuotaStorage.chain; QuotaStorage.ring].
Proof.
  destruct (add_then_delete
              (QuotaStorage.mkStore (QuotaStorage.content QuotaStorage.full) 4000)
              1700000000009 (QuotaStorage.sample_form "Anklet")
              [QuotaStorage.chain; QuotaStorage.ring]) as (Hsaved & _).
  - vm_compute. reflexivity.
  - intros x [<-|[<-|[]]]; discriminate.
  - reflexivity.
  - destruct (Hsaved (QuotaStorage.mkStore
                        (<[PRODUCTS_KEY :=
                             JSON_stringify
                               [Product (mkProduct 1700000000009 "Anklet" 100 "" "" None);
                                QuotaStorage.chain; QuotaStorage.ring]]>
                           (QuotaStorage.content QuotaStorage.full)) 4000))
      as (Hadd & Hboth & _).
    + vm_compute. reflexivity.
    + rewrite Hadd.
      destruct (Hboth (QuotaStorage.mkStore
                         (<[PRODUCTS_KEY :=
                              JSON_stringify [QuotaStorage.chain; QuotaStorage.ring]]>
                            (<[PRODUCTS_KEY :=
                                 JSON_stringify
                                   [Product (mkProduct 1700000000009 "Anklet" 100 "" "" None);
                                    QuotaStorage.chain; QuotaStorage.ring]]>
                               (QuotaStorage.content QuotaStorage.full))) 4000))
        as (Hdelete & Hload).
      * vm_compute. reflexivity.
      * rewrite Hdelete. exact Hload.
Defined.


(** A category form whose name holds two spaces, submitted on a store
    with an empty category array: a category with an empty name is
    stored. *)
Lemma addCategory_stores_witness :
  loadLocal (@addCategory sample_browser _ _
               (QuotaStorage.mkStore (<[CATEGORIES_KEY := JSON_stringify []]> ∅) 4000)
               1700000000000 (Some "  ") (Some "") None 0)
            CATEGORIES_KEY
  = JArray [Category (mkCategory 1700000000000 "" "")].
Proof.
  destruct (@addCategory_stores sample_browser _ _
              (QuotaStorage.mkStore (<[CATEGORIES_KEY := JSON_stringify []]> ∅) 4000)
              1700000000000 (Some "  ") (Some "") None 0) as (Hstore & _).
  destruct (Hstore []) as (Hsaved & _).
  - vm_compute. reflexivity.
  - destruct (Hsaved (QuotaStorage.mkStore
                        (<[CATEGORIES_KEY :=
                             JSON_stringify [Category (mkCategory 1700000000000 "" "")]]>
                           (<[CATEGORIES_KEY := JSON_stringify []]> ∅)) 4000))
      as (Hsubmit & Hload).
    + vm_compute. reflexivity.
    + rewrite Hsubmit. exact Hload.
Defined.

(** A file of 500 KiB selected on a page with the image text input. *)
Lemma selected_file_stored_unresized_witness :
  @submitted_image ExactOps sample_browser
     (@onProductFileChange sample_browser sample_inputs
        (Some (mkFile "large.png" (500 * 1024))) 0)
  = Fulfilled "data:large.png".
Proof.
  apply (@selected_file_stored_unresized ExactOps sample_browser sample_inputs
           (mkFile "large.png" (500 * 1024)) 0 "" "data:large.png"); reflexivity.
Defined.

(** The same file on a page without the image text input. *)
Lemma selected_file_converted_witness :
  @submitted_image ExactOps sample_browser
     (@onProductFileChange sample_browser
        (mkInputs "Ring" 950 None None None None)
        (Some (mkFile "large.png" (500 * 1024))) 0)
  = Fulfilled "data:image/jpeg;1000x750".
Proof.
  rewrite (@selected_file_converted ExactOps sample_browser
             (mkInputs "Ring" 950 None None None None)
             (mkFile "large.png" (500 * 1024)) 0 (or_introl eq_refl)).
  reflexivity.
Defined.

(** A document of 500 KiB. *)
Lemma convertFileForStorage_undecodable_witness :
  @convertFileForStorage ExactOps plain_browser (Some (mkFile "list.pdf" (500 * 1024)))
  = Fulfilled "data:list.pdf".
Proof.
  apply (@convertFileForStorage_undecodable ExactOps plain_browser
           (mkFile "list.pdf" (500 * 1024)) "data:list.pdf"); reflexivity.
Defined.

End QuotaStoreExamples.
